(** * Verisafe oracle agent: aggregation, proving, archiving, submission

    A shallow embedding of the oracle agent pipeline
    (backend/oracle/price-fetcher.js, backend/zk/groth16-prover.js,
    backend/zk/commitment.js, backend/greenfield/client.js,
    backend/oracle/agent.js), the properties its specification states
    about it, and further properties of the code.

    Conventions.
    - A JavaScript number is a [JS.number]: a finite value carried as an exact
      rational, or one of the three non-finite values.  Rounding of finite
      results to the nearest double and the sign of zero are not modelled.
    - A thrown value is a [JS.Error]; a computation that may throw returns a
      [JS.Res].
    - Everything outside the repository (network, proof engine, remote store,
      chain, randomness, file system failures) is a field of an explicit
      world record; the code is a function of that world.
    - What the agent does to the outside is recorded, in order, as a trace of
      events.  Log lines (console and log file) are not modelled. *)

From Stdlib Require Import ZArith QArith Qround Qabs List String Ascii Lia Lqa Bool Arith.
From Stdlib Require Import Strings.Byte RelationClasses DecimalPos.
From Stdlib Require Import Sorting.Sorted Sorting.Permutation DecimalString HexadecimalString.
From Equations Require Import Equations.
Import ListNotations.

Local Open Scope string_scope.

(* ================================================================== *)
(** * JavaScript values used by the agent *)
(* ================================================================== *)

Module JS.

(** ** Errors and results *)

Inductive ErrKind :=
| PlainError        (* new Error(msg) *)
| TypeError
| RangeError
| SyntaxError
| CallException     (* ethers: the transaction reverted *)
| NetworkError.     (* ethers / fetch: transport failure *)

Record Error := mkError { kind : ErrKind; message : string }.

Inductive Res (A : Type) :=
| Ok (a : A)
| Throw (e : Error).
Arguments Ok {A} a.
Arguments Throw {A} e.

(** ** Numbers *)

Inductive number :=
| Fin (q : Q)
| PInf
| NInf
| NaN.

Definition isFinite (x : number) : bool :=
  match x with Fin _ => true | _ => false end.

Definition Qpos_b (q : Q) : bool := negb (Qle_bool q 0).
Definition Qneg_b (q : Q) : bool := negb (Qle_bool 0 q).
Definition Qzero_b (q : Q) : bool := Qeq_bool q 0.

Definition neg (x : number) : number :=
  match x with
  | Fin q => Fin (- q)
  | PInf => NInf
  | NInf => PInf
  | NaN => NaN
  end.

Definition add (a b : number) : number :=
  match a, b with
  | NaN, _ | _, NaN => NaN
  | Fin x, Fin y => Fin (x + y)
  | PInf, NInf | NInf, PInf => NaN
  | PInf, _ | _, PInf => PInf
  | NInf, _ | _, NInf => NInf
  end.

Definition sub (a b : number) : number := add a (neg b).

Definition mul (a b : number) : number :=
  match a, b with
  | NaN, _ | _, NaN => NaN
  | Fin x, Fin y => Fin (x * y)
  | Fin x, PInf | PInf, Fin x =>
      if Qzero_b x then NaN else if Qpos_b x then PInf else NInf
  | Fin x, NInf | NInf, Fin x =>
      if Qzero_b x then NaN else if Qpos_b x then NInf else PInf
  | PInf, PInf | NInf, NInf => PInf
  | PInf, NInf | NInf, PInf => NInf
  end.

Definition div (a b : number) : number :=
  match a, b with
  | NaN, _ | _, NaN => NaN
  | Fin x, Fin y =>
      if Qzero_b y
      then (if Qzero_b x then NaN else if Qpos_b x then PInf else NInf)
      else Fin (x / y)
  | Fin _, (PInf | NInf) => Fin 0
  | PInf, Fin y => if Qneg_b y then NInf else PInf
  | NInf, Fin y => if Qneg_b y then PInf else NInf
  | (PInf | NInf), (PInf | NInf) => NaN
  end.

Definition Math_abs (x : number) : number :=
  match x with
  | Fin q => Fin (Qabs q)
  | PInf | NInf => PInf
  | NaN => NaN
  end.

(** [Math.round]: nearest integer, halves towards plus infinity. *)
Definition Math_round (x : number) : number :=
  match x with
  | Fin q => Fin (inject_Z (Qfloor (q + (1 # 2))))
  | _ => x
  end.

(** [a <= b] and [a > b]; both are false as soon as a NaN is involved. *)
Definition leb (a b : number) : bool :=
  match a, b with
  | NaN, _ | _, NaN => false
  | Fin x, Fin y => Qle_bool x y
  | NInf, _ => true
  | _, PInf => true
  | _, _ => false
  end.

Definition gtb (a b : number) : bool :=
  match a, b with
  | NaN, _ | _, NaN => false
  | Fin x, Fin y => negb (Qle_bool x y)
  | PInf, PInf => false
  | PInf, _ => true
  | Fin _, NInf => true
  | _, _ => false
  end.

Definition ltb (a b : number) : bool := gtb b a.

(** [Math.max(...xs)]: minus infinity on no argument, NaN if any is NaN. *)
Definition max2 (a b : number) : number :=
  match a, b with
  | NaN, _ | _, NaN => NaN
  | _, _ => if gtb b a then b else a
  end.

Definition Math_max (xs : list number) : number := fold_left max2 xs NInf.

(** ** Arrays *)

(** [s[i]] used as an operand: a missing element is [undefined], which
    arithmetic turns into NaN. *)
Definition get (s : list number) (i : nat) : number := nth i s NaN.

(** [[...arr].sort(cmp)]: the sort is stable; with a consistent comparator
    any stable sort gives the same array.  An element is placed before the
    first element of the sorted rest that does not compare below it. *)
Fixpoint insert (cmp : number -> number -> number) (x : number)
  (l : list number) : list number :=
  match l with
  | [] => [x]
  | y :: t => if ltb (cmp y x) (Fin 0) then y :: insert cmp x t else x :: y :: t
  end.

Fixpoint sort (cmp : number -> number -> number) (l : list number) : list number :=
  match l with
  | [] => []
  | x :: t => insert cmp x (sort cmp t)
  end.

(** ** Strings to numbers *)

Definition digit_of (c : ascii) : option Z :=
  let n := Z.of_nat (nat_of_ascii c) in
  if ((48 <=? n) && (n <=? 57))%Z then Some (n - 48)%Z else None.

Definition hexdigit_of (c : ascii) : option Z :=
  let n := Z.of_nat (nat_of_ascii c) in
  if ((48 <=? n) && (n <=? 57))%Z then Some (n - 48)%Z
  else if ((97 <=? n) && (n <=? 102))%Z then Some (n - 87)%Z
  else if ((65 <=? n) && (n <=? 70))%Z then Some (n - 55)%Z
  else None.

(** The longest prefix of decimal digits, and what follows it. *)
Fixpoint take_digits (s : string) : list Z * string :=
  match s with
  | String c t =>
      match digit_of c with
      | Some d => let (ds, r) := take_digits t in (d :: ds, r)
      | None => ([], s)
      end
  | EmptyString => ([], s)
  end.

Definition digits_value (base : Z) (ds : list Z) : Z :=
  fold_left (fun acc d => (base * acc + d)%Z) ds 0%Z.

Definition is_space (c : ascii) : bool :=
  let n := nat_of_ascii c in
  (n =? 32)%nat || ((9 <=? n)%nat && (n <=? 13)%nat).

Fixpoint trim_start (s : string) : string :=
  match s with
  | String c t => if is_space c then trim_start t else s
  | EmptyString => s
  end.

Definition pow10 (e : Z) : Q :=
  if (0 <=? e)%Z then inject_Z (10 ^ e) else / inject_Z (10 ^ (- e)).

(** The optional exponent part: [e], an optional sign, at least one digit. *)
Definition exponent (s : string) : Z :=
  match s with
  | String c t =>
      if (Ascii.eqb c "e" || Ascii.eqb c "E")%bool then
        let '(sg, u) :=
          match t with
          | String "+" u => (1%Z, u)
          | String "-" u => ((-1)%Z, u)
          | _ => (1%Z, t)
          end in
        match fst (take_digits u) with
        | [] => 0%Z
        | ds => (sg * digits_value 10 ds)%Z
        end
      else 0%Z
  | EmptyString => 0%Z
  end.

(** An unsigned decimal literal at the start of [s]. *)
Definition parse_unsigned (s : string) : number :=
  if prefix "Infinity" s then PInf
  else
    let (ip, r1) := take_digits s in
    let (fp, r2) :=
      match r1 with
      | String "." r => take_digits r
      | _ => ([], r1)
      end in
    match ip, fp with
    | [], [] => NaN
    | _, _ =>
        Fin (inject_Z (digits_value 10 (ip ++ fp))
             * pow10 (exponent r2 - Z.of_nat (List.length fp)))
    end.

(** [parseFloat]: leading white space is skipped, the longest prefix that is
    a decimal literal is read, and NaN is returned when there is none. *)
Definition parseFloat (s : string) : number :=
  match trim_start s with
  | String "-" t => neg (parse_unsigned t)
  | String "+" t => parse_unsigned t
  | t => parse_unsigned t
  end.

(** All characters of [s] as digits in [base], or nothing. *)
Fixpoint all_digits (dig : ascii -> option Z) (s : string) : option (list Z) :=
  match s with
  | EmptyString => Some []
  | String c t =>
      match dig c, all_digits dig t with
      | Some d, Some ds => Some (d :: ds)
      | _, _ => None
      end
  end.

(** [BigInt(s)] on the literals the agent builds: an empty string, a
    [0x] literal, or an optionally signed decimal literal.  A string that
    is none of these is a SyntaxError; the other literal forms of the
    language (surrounding white space, [0o], [0b]) do not occur here and
    are counted among the errors. *)
Definition BigInt_of_string (s : string) : Res Z :=
  let bad := Throw (mkError SyntaxError ("Cannot convert " ++ s ++ " to a BigInt")) in
  let lit dig base t :=
    match t, all_digits dig t with
    | String _ _, Some ds => Some (digits_value base ds)
    | _, _ => None
    end in
  match s with
  | EmptyString => Ok 0%Z
  | String "0" (String "x" t) | String "0" (String "X" t) =>
      match lit hexdigit_of 16%Z t with Some v => Ok v | None => bad end
  | String "-" t =>
      match lit digit_of 10%Z t with Some v => Ok (- v)%Z | None => bad end
  | String "+" t =>
      match lit digit_of 10%Z t with Some v => Ok v | None => bad end
  | _ =>
      match lit digit_of 10%Z s with Some v => Ok v | None => bad end
  end.

(** [BigInt(v)] where [v] may be [undefined] (a missing array element). *)
Definition BigInt_of_elem (v : option string) : Res Z :=
  match v with
  | Some s => BigInt_of_string s
  | None => Throw (mkError TypeError "Cannot convert undefined to a BigInt")
  end.

(** Decimal rendering of a length or counter. *)
Definition string_of_nat (n : nat) : string :=
  DecimalString.NilEmpty.string_of_uint (Nat.to_uint n).

End JS.

(* ================================================================== *)
(** * backend/oracle/price-fetcher.js *)
(* ================================================================== *)

Module PriceFetcher.
Import JS.

Definition MAX_DEVIATION_BPS : number := Fin 200.
Definition MIN_SOURCES : nat := 2.

(** The configured sources, by name, in the order of [SOURCES]. *)
Definition SOURCES : list string := ["Binance"; "Coinbase"; "Kraken"; "CoinGecko"].

(** What the network and [source.parse] give for one source: an exception
    (timeout, transport or JSON failure, a missing field) or the parsed
    number. *)
Inductive Response :=
| Threw (msg : string)
| Parsed (price : number).

(** An element of [results]; [price] is [null] and [error] is set on failure. *)
Record FetchResult := mkResult {
  name : string;
  price : option number;
  ok : bool;
  error : option string
}.

Definition fetchOne (source : string) (r : Response) : FetchResult :=
  match r with
  | Threw msg => mkResult source None false (Some msg)
  | Parsed p =>
      if negb (isFinite p) || leb p (Fin 0)
      then mkResult source None false (Some "invalid value")
      else mkResult source (Some p) true None
  end.

(** [r.price] as an operand ([null] counts as 0 in arithmetic). *)
Definition price_of (r : FetchResult) : number :=
  match price r with Some p => p | None => Fin 0 end.

Definition median (arr : list number) : number :=
  let s := sort sub arr in
  let m := (List.length s / 2)%nat in
  if (List.length s mod 2 =? 1)%nat then get s m
  else div (add (get s (m - 1)) (get s m)) (Fin 2).

Definition devBps (a b : number) : number :=
  Math_round (mul (div (Math_abs (sub a b)) b) (Fin 10000)).

Record Aggregated := mkAggregated {
  agg_price : number;
  agg_sources : list FetchResult;
  agg_validSources : option (list FetchResult);
  agg_spread : number;
  agg_validCount : nat;
  agg_override : bool
}.

Definition msg_responded (n : nat) : string :=
  "Only " ++ string_of_nat n ++ " sources responded — refusing to submit".

Definition msg_valid (n : nat) : string :=
  "Only " ++ string_of_nat n ++ " valid sources after outlier filter — possible manipulation".

(** The part of [fetchAggregatedPrice] that follows [Promise.all]. *)
Definition aggregate (results : list FetchResult) : Res Aggregated :=
  let successful := filter ok results in
  if (List.length successful <? MIN_SOURCES)%nat
  then Throw (mkError PlainError (msg_responded (List.length successful)))
  else
    let med1 := median (map price_of successful) in
    let valid := filter (fun r => leb (devBps (price_of r) med1) MAX_DEVIATION_BPS) successful in
    let outliers := filter (fun r => gtb (devBps (price_of r) med1) MAX_DEVIATION_BPS) successful in
    if (List.length valid <? MIN_SOURCES)%nat
    then Throw (mkError PlainError (msg_valid (List.length valid)))
    else
      let finalPrices := map price_of valid in
      let finalMedian := median finalPrices in
      let spread := Math_max (map (fun p => devBps p finalMedian) finalPrices) in
      Ok (mkAggregated finalMedian results (Some valid) spread (List.length valid) false).


(** [net] is the response of each source in this call. *)
Definition fetchAggregatedPrice (overridePrice : option string)
  (net : string -> Response) : Res Aggregated :=
  match overridePrice with
  | Some s =>
      let p := parseFloat s in
      Ok (mkAggregated p [mkResult "OVERRIDE" (Some p) true None] None (Fin 0) 1 true)
  | None => aggregate (map (fun src => fetchOne src (net src)) SOURCES)
  end.

End PriceFetcher.

(** Sequencing of computations that may throw. *)
Definition bindR {A B} (m : JS.Res A) (k : A -> JS.Res B) : JS.Res B :=
  match m with
  | JS.Ok a => k a
  | JS.Throw e => JS.Throw e
  end.

Notation "x <-- m ;; k" := (bindR m (fun x => k))
  (at level 61, m at next level, right associativity).
Notation "'check' m ;; k" := (bindR m (fun _ => k))
  (at level 61, m at next level, right associativity).

(* ================================================================== *)
(** * backend/zk/groth16-prover.js *)
(* ================================================================== *)

Module Prover.
Import JS.

Definition FIELD_MODULUS : Z :=
  21888242871839275222246405745257275088548364400416034343698204186575808495617%Z.

Definition WASM_PATH : string := "circuits/build/price_commitment_js/price_commitment.wasm".
Definition ZKEY_PATH : string := "circuits/build/price_commitment_final.zkey".

(** The engine's proof object: coordinates are decimal strings. *)
Record Groth16Proof := mkProof {
  pi_a : list string;
  pi_b : list (list string);
  pi_c : list string
}.

Record ProverInput := mkInput {
  in_price : string;
  in_timestamp : string;
  in_salt : string
}.

(** What one call of the prover module sees of the outside. *)
Record Env := mkEnv {
  wasm_exists : bool;
  zkey_exists : bool;
  now_seconds : Z;                          (* Math.floor(Date.now() / 1000) *)
  rng : nat -> byte;                        (* the bytes crypto.randomBytes hands out *)
  fullProve : ProverInput -> Res (Groth16Proof * list string);
  exportSolidityCallData : Groth16Proof -> list string -> Res string;
  readVkey : Res unit;                      (* readFileSync + JSON.parse of the key *)
  groth16_verify : list string -> Groth16Proof -> Res bool
}.

Record ProofData := mkProofData {
  proof : Groth16Proof;
  publicSignals : list string;
  commitment : string;
  salt : string;
  price : string;
  timestamp : string;
  priceUSD : number;
  calldataRaw : string;
  sources : option (list string)            (* attached later by the agent *)
}.

Definition LF : string := String (ascii_of_nat 10) EmptyString.

Definition checkCircuitFiles (env : Env) : Res unit :=
  if negb (wasm_exists env) then
    Throw (mkError PlainError
      ("Circuit WASM not found at " ++ WASM_PATH ++ LF ++ "Run setup first: bash circuits/setup.sh"))
  else if negb (zkey_exists env) then
    Throw (mkError PlainError
      ("ZKey not found at " ++ ZKEY_PATH ++ LF ++ "Run setup first: bash circuits/setup.sh"))
  else Ok tt.

(** ** Bytes and their hexadecimal rendering *)

Definition byte_val (b : byte) : Z := Z.of_N (Byte.to_N b).

Definition hexchar (d : Z) : ascii :=
  nth (Z.to_nat d) (list_ascii_of_string "0123456789abcdef") "0"%char.

(** [buf.toString("hex")]: two lower-case digits per byte. *)
Fixpoint toString_hex (bs : list byte) : string :=
  match bs with
  | [] => EmptyString
  | b :: t =>
      String (hexchar (byte_val b / 16)) (String (hexchar (byte_val b mod 16)) (toString_hex t))
  end.

(** [crypto.randomBytes(n)] when [pos] bytes have been handed out already. *)
Definition randomBytes (n : nat) (rng : nat -> byte) (pos : nat) : list byte :=
  map rng (seq pos n).

(** The big-endian value of a byte string. *)
Definition be_value (bs : list byte) : Z :=
  fold_left (fun acc b => (256 * acc + byte_val b)%Z) bs 0%Z.

(** One iteration of the salt loop:
    [BigInt("0x" + crypto.randomBytes(31).toString("hex"))]. *)
Definition salt_candidate (rng : nat -> byte) (pos : nat) : Res Z :=
  BigInt_of_string ("0x" ++ toString_hex (randomBytes 31 rng pos)).

(** ** Number and BigInt conversions *)

(** [BigInt(x)] for a number: a RangeError unless [x] is an integer. *)
Definition BigInt_of_number (x : number) : Res Z :=
  match x with
  | Fin q =>
      if Qeq_bool q (inject_Z (Qfloor q)) then Ok (Qfloor q)
      else Throw (mkError RangeError "The number cannot be converted to a BigInt because it is not an integer")
  | _ => Throw (mkError RangeError "The number cannot be converted to a BigInt because it is not an integer")
  end.

(** [n.toString()] for a BigInt. *)
Definition BigInt_toString (z : Z) : string := DecimalString.NilZero.string_of_int (Z.to_int z).

(** ** The salt loop always leaves at its first iteration

    Thirty-one random bytes read as a big-endian integer stay below 2^248,
    hence below the field modulus.  The loop below is defined by recursion
    on that fact. *)

Definition nibbles (bs : list byte) : list Z :=
  flat_map (fun b => [byte_val b / 16; byte_val b mod 16]%Z) bs.

Lemma byte_val_range (b : byte) : (0 <= byte_val b < 256)%Z.
Proof.
  unfold byte_val. pose proof (Byte.to_N_bounded b). lia.
Qed.

Lemma hexdigit_hexchar (d : Z) :
  (0 <= d < 16)%Z -> hexdigit_of (hexchar d) = Some d.
Proof.
  intros Hd.
  assert (Hn : (Z.to_nat d < 16)%nat) by lia.
  rewrite <- (Z2Nat.id d) at 2 by lia.
  unfold hexchar. generalize dependent (Z.to_nat d). intros n Hn.
  do 16 (destruct n as [|n]; [reflexivity|]). lia.
Qed.

Lemma all_digits_hex (bs : list byte) :
  all_digits hexdigit_of (toString_hex bs) = Some (nibbles bs).
Proof.
  induction bs as [|b t IH]; [reflexivity|].
  pose proof (byte_val_range b) as Hb.
  cbn [toString_hex all_digits nibbles flat_map app].
  rewrite !hexdigit_hexchar by (try apply Z.mod_pos_bound; try split;
    try apply Z.div_pos; try apply Z.div_lt_upper_bound; lia).
  fold (nibbles t). rewrite IH. reflexivity.
Qed.

Lemma fold_nibbles (bs : list byte) (acc : Z) :
  fold_left (fun a d => (16 * a + d)%Z) (nibbles bs) acc
  = fold_left (fun a b => (256 * a + byte_val b)%Z) bs acc.
Proof.
  revert acc. induction bs as [|b t IH]; intros acc; [reflexivity|].
  cbn [nibbles flat_map app fold_left]. fold (nibbles t). rewrite IH.
  f_equal. pose proof (Z.div_mod (byte_val b) 16). lia.
Qed.

Lemma be_value_acc_range (bs : list byte) (acc : Z) :
  (0 <= acc)%Z ->
  (256 ^ Z.of_nat (List.length bs) * acc
   <= fold_left (fun a b => (256 * a + byte_val b)%Z) bs acc
   < 256 ^ Z.of_nat (List.length bs) * (acc + 1))%Z.
Proof.
  revert acc. induction bs as [|b t IH]; intros acc Hacc.
  - cbn [fold_left List.length Z.of_nat]. rewrite Z.pow_0_r. lia.
  - cbn [fold_left List.length]. pose proof (byte_val_range b) as Hb.
    specialize (IH (256 * acc + byte_val b)%Z ltac:(lia)).
    rewrite Nat2Z.inj_succ, Z.pow_succ_r by lia.
    assert (0 < 256 ^ Z.of_nat (List.length t))%Z by (apply Z.pow_pos_nonneg; lia).
    nia.
Qed.

Lemma be_value_range (bs : list byte) :
  (0 <= be_value bs < 256 ^ Z.of_nat (List.length bs))%Z.
Proof.
  pose proof (be_value_acc_range bs 0 ltac:(lia)) as H.
  unfold be_value. lia.
Qed.

Lemma randomBytes_length n rng pos : List.length (randomBytes n rng pos) = n.
Proof. unfold randomBytes. now rewrite length_map, length_seq. Qed.

Lemma BigInt_of_hex (bs : list byte) :
  bs <> [] -> BigInt_of_string ("0x" ++ toString_hex bs) = Ok (be_value bs).
Proof.
  intros Hne. destruct bs as [|b t]; [congruence|].
  pose proof (all_digits_hex (b :: t)) as Hd.
  cbn [toString_hex] in Hd |- *.
  change ("0x" ++ ?h) with (String "0" (String "x" h)).
  cbv beta iota zeta delta [BigInt_of_string].
  rewrite Hd. unfold digits_value. rewrite fold_nibbles. reflexivity.
Qed.

Lemma salt_candidate_value (rng : nat -> byte) (pos : nat) :
  salt_candidate rng pos = Ok (be_value (randomBytes 31 rng pos)).
Proof.
  unfold salt_candidate. apply BigInt_of_hex.
  unfold randomBytes. cbn [seq map]. discriminate.
Qed.

Lemma salt_candidate_below (rng : nat -> byte) (pos : nat) (v : Z) :
  salt_candidate rng pos = Ok v -> (0 <= v < 2 ^ 248)%Z.
Proof.
  rewrite salt_candidate_value. intros [= <-].
  pose proof (be_value_range (randomBytes 31 rng pos)) as H.
  rewrite randomBytes_length in H. exact H.
Qed.

Lemma pow248_below_modulus : (2 ^ 248 < FIELD_MODULUS)%Z.
Proof. reflexivity. Qed.

(** ** generateProof *)

(** A value together with the equation that names it. *)
Definition inspect {A : Type} (x : A) : { y : A | x = y } := exist _ x eq_refl.

(** [do { salt = BigInt("0x" + randomBytes(31).toString("hex")) }
     while (salt >= FIELD_MODULUS)], from position [pos] of the random
    stream.  The result is the salt and the position after the loop. *)
Equations? draw_salt (rng : nat -> byte) (pos : nat) : Res (Z * nat) by wf 0%nat lt :=
draw_salt rng pos with inspect (salt_candidate rng pos) := {
  | exist _ (Throw e) Ht => Throw e
  | exist _ (Ok salt) Hc with inspect (FIELD_MODULUS <=? salt)%Z := {
      | exist _ true Hge => draw_salt rng (pos + 31)
      | exist _ false Hlt => Ok (salt, (pos + 31)%nat) } }.
Proof.
  apply salt_candidate_below in Hc.
  pose proof pow248_below_modulus. lia.
Qed.

(** [BigInt(ts || Math.floor(Date.now() / 1000))] *)
Definition timestamp_of (env : Env) (ts : option Z) : Z :=
  match ts with
  | Some t => if (t =? 0)%Z then now_seconds env else t
  | None => now_seconds env
  end.

(** [BigInt(v).toString(16)] for the non-negative values the engine gives. *)
Definition BigInt_toString16 (z : Z) : string :=
  HexadecimalString.NilZero.string_of_uint (N.to_hex_uint (Z.to_N z)).

Fixpoint padStart0 (n : nat) (s : string) : string :=
  if (String.length s <? n)%nat then
    match n with
    | O => s
    | S n' => String "0" (padStart0 n' s)
    end
  else s.

(** [generateProof(priceUSD, ts)].  The parsed call data, the pretty-printed
    proof and the creation date of the returned object are not kept: nothing
    in the agent reads them. *)
Definition generateProof (env : Env) (priceUSD : number) (ts : option Z) : Res ProofData :=
  check checkCircuitFiles env ;;
  price <-- BigInt_of_number (Math_round (mul priceUSD (Fin (inject_Z (10 ^ 8))))) ;;
  let timestamp := timestamp_of env ts in
  sp <-- draw_salt (rng env) 0 ;;
  let salt := fst sp in
  let input := mkInput (BigInt_toString price) (BigInt_toString timestamp) (BigInt_toString salt) in
  pp <-- fullProve env input ;;
  let '(proof, publicSignals) := pp in
  c <-- BigInt_of_elem (nth_error publicSignals 0) ;;
  let commitment := "0x" ++ padStart0 64 (BigInt_toString16 c) in
  calldata <-- exportSolidityCallData env proof publicSignals ;;
  Ok (mkProofData proof publicSignals commitment (BigInt_toString salt)
        (BigInt_toString price) (BigInt_toString timestamp) priceUSD calldata None).

Definition verifyProof (env : Env) (proof : Groth16Proof) (publicSignals : list string) : Res bool :=
  check checkCircuitFiles env ;;
  check readVkey env ;;
  valid <-- groth16_verify env publicSignals proof ;;
  Ok valid.

End Prover.

(* ================================================================== *)
(** * The agent's state, its events and its monad *)
(* ================================================================== *)

Module Sys.
Import JS.

(** The arguments of [oracle.submitPriceWithProof]. *)
Record SubmitArgs := mkArgs {
  s_price : Z;
  s_timestamp : Z;
  s_commitment : string;
  s_proof_a : list Z;
  s_proof_b : list (list Z);
  s_proof_c : list Z;
  s_greenfieldRef : string
}.

(** What the agent does to the outside, in the order it does it. *)
Inductive Event :=
| EvProbe (rpc : string) (alive : bool)            (* provider.getBlockNumber() *)
| EvSleep (ms : Z)                                 (* setTimeout in retry *)
| EvFetchPrices                                    (* fetchAggregatedPrice *)
| EvProve                                          (* generateProof *)
| EvVerify (proof : Prover.Groth16Proof) (signals : list string) (result : Res bool)
| EvHeadBucket
| EvCreateBucket
| EvLocalWrite (path text : string)                (* fs.writeFileSync *)
| EvListProviders                                  (* client.sp.getStorageProviders() *)
| EvCreateObject (objectName : string) (checksums : list (list byte))
| EvUploadObject (objectName : string)
| EvSubmit (args : SubmitArgs)                     (* oracle.submitPriceWithProof(...) *)
| EvWait (tx : string).                            (* tx.wait() *)

(** How many times each outside service has been called. *)
Record Calls := mkCalls {
  c_provider : nat;
  c_fetch : nat;
  c_prove : nat;
  c_upload : nat;
  c_send : nat
}.

Record State := mkState {
  trace : list Event;
  files : list (string * string);   (* local files, the latest write first *)
  calls : Calls
}.

Definition init : State := mkState [] [] (mkCalls 0 0 0 0 0).

Definition M (A : Type) : Type := State -> Res A * State.

Definition ret {A} (a : A) : M A := fun s => (Ok a, s).
Definition throw {A} (e : Error) : M A := fun s => (Throw e, s).
Definition lift {A} (r : Res A) : M A := fun s => (r, s).

Definition bind {A B} (m : M A) (k : A -> M B) : M B :=
  fun s => match m s with
           | (Ok a, s') => k a s'
           | (Throw e, s') => (Throw e, s')
           end.

(** [try { m } catch (e) { h e }] *)
Definition try_catch {A} (m : M A) (h : Error -> M A) : M A :=
  fun s => match m s with
           | (Ok a, s') => (Ok a, s')
           | (Throw e, s') => h e s'
           end.

Definition emit (e : Event) : M unit :=
  fun s => (Ok tt, mkState (trace s ++ [e]) (files s) (calls s)).

(** Count one more call of a service and give its number. *)
Definition next_call (number : Calls -> nat) (count : Calls -> Calls) : M nat :=
  fun s => (Ok (number (calls s)), mkState (trace s) (files s) (count (calls s))).

Definition count_provider (c : Calls) : Calls :=
  mkCalls (S (c_provider c)) (c_fetch c) (c_prove c) (c_upload c) (c_send c).
Definition count_fetch (c : Calls) : Calls :=
  mkCalls (c_provider c) (S (c_fetch c)) (c_prove c) (c_upload c) (c_send c).
Definition count_prove (c : Calls) : Calls :=
  mkCalls (c_provider c) (c_fetch c) (S (c_prove c)) (c_upload c) (c_send c).
Definition count_upload (c : Calls) : Calls :=
  mkCalls (c_provider c) (c_fetch c) (c_prove c) (S (c_upload c)) (c_send c).
Definition count_send (c : Calls) : Calls :=
  mkCalls (c_provider c) (c_fetch c) (c_prove c) (c_upload c) (S (c_send c)).

Definition put_file (path text : string) : M unit :=
  fun s => (Ok tt, mkState (trace s) ((path, text) :: files s) (calls s)).


End Sys.

Notation "'let*' x ':=' m 'in' k" := (Sys.bind m (fun x => k))
  (at level 10, x name, m at level 100, k at level 200).
Notation "'do*' m 'in' k" := (Sys.bind m (fun _ => k))
  (at level 10, m at level 100, k at level 200).

(* ================================================================== *)
(** * backend/greenfield/client.js *)
(* ================================================================== *)

Module Greenfield.
Import JS Sys.

Definition LOCAL_DIR : string := "backend/greenfield-proofs".
Definition BUCKET : string := "verisafe-oracle-proofs".
Definition EC_DATA : nat := 4.
Definition EC_PARITY : nat := 2.

Record Wallet := mkWallet { address : string; privateKey : string }.

(** The object that [uploadProof] serialises. *)
Record ArchiveRecord := mkRecord {
  rec_protocol : string;
  rec_circuit : string;
  rec_version : string;
  rec_price : string;
  rec_priceUSD : number;
  rec_timestamp : string;
  rec_commitment : string;
  rec_proof : Prover.Groth16Proof;
  rec_publicSignals : list string;
  rec_salt : string;
  rec_sources : option (list string);
  rec_txHash : string;
  rec_chain : string;
  rec_contract : option string;
  rec_explorer : string;
  rec_storedAt : string;
  rec_submitter : string
}.

(** The library functions the client calls: Node's SHA-256, ethers'
    Keccak-256 (a hexadecimal string) and [JSON.stringify(record, null, 2)]. *)
Class Platform := {
  sha256 : list byte -> list byte;
  keccak256 : list byte -> string;
  JSON_stringify : ArchiveRecord -> string
}.

(** [ethers.toUtf8Bytes] and [Buffer.from(text)]: a string is its bytes. *)
Definition utf8 (s : string) : list byte := list_byte_of_string s.

(** ** Buffers *)

Definition Buffer_alloc (n : nat) : list byte := repeat x00 n.

(** [source.copy(target, targetStart, sourceStart, sourceEnd)]; the result
    is the target after the call.  Node raises ERR_OUT_OF_RANGE when
    [sourceStart] lies beyond the end of the source. *)
Definition Buffer_copy (source target : list byte)
  (targetStart sourceStart sourceEnd : nat) : Res (list byte) :=
  if (List.length source <? sourceStart)%nat then
    Throw (mkError RangeError "The value of sourceStart is out of range")
  else if (List.length target <=? targetStart)%nat || (sourceEnd <=? sourceStart)%nat then
    Ok target
  else
    let nb := Nat.min (Nat.min (sourceEnd - sourceStart) (List.length target - targetStart))
                      (List.length source - sourceStart) in
    Ok (firstn targetStart target
        ++ firstn nb (skipn sourceStart source)
        ++ skipn (targetStart + nb) target)%list.

Definition byte_xor (a b : byte) : byte :=
  match Byte.of_N (N.lxor (Byte.to_N a) (Byte.to_N b)) with
  | Some c => c
  | None => x00
  end.

(** [for (b = 0; b < shardSize; b++) parity[b] ^= shard[b]]; a byte the shard
    does not have reads as [undefined] and leaves the parity byte as it is. *)
Fixpoint xor_into (parity shard : list byte) : list byte :=
  match parity, shard with
  | p :: ps, s :: ss => byte_xor p s :: xor_into ps ss
  | ps, [] => ps
  | [], _ => []
  end.

(** [parity[0] ^= v]; nothing happens on an empty buffer. *)
Definition xor_first (parity : list byte) (v : byte) : list byte :=
  match parity with
  | [] => []
  | x :: t => byte_xor x v :: t
  end.

Definition byte_of_nat (n : nat) : byte :=
  match Byte.of_N (N.of_nat (n mod 256)) with Some b => b | None => x00 end.

(** ** manualChecksums *)

Definition shardSize (len : nat) : nat := (len + (EC_DATA - 1)) / EC_DATA.

(** The data shards with index [i], [i+1], ..., [i+n-1]. *)
Fixpoint data_shards (bytes : list byte) (i n : nat) : Res (list (list byte)) :=
  match n with
  | O => Ok []
  | S n' =>
      let size := shardSize (List.length bytes) in
      shard <-- Buffer_copy bytes (Buffer_alloc size) 0 (i * size)
                  (Nat.min ((i + 1) * size) (List.length bytes)) ;;
      rest <-- data_shards bytes (S i) n' ;;
      Ok (shard :: rest)
  end.

Definition parity_shard (size : nat) (dataShards : list (list byte)) (p : nat) : list byte :=
  let parity := fold_left xor_into dataShards (Buffer_alloc size) in
  if (0 <? p)%nat then xor_first parity (byte_of_nat p) else parity.

Definition manualChecksums `{PF : Platform} (bytes : list byte) : Res (list (list byte)) :=
  let size := shardSize (List.length bytes) in
  dataShards <-- data_shards bytes 0 EC_DATA ;;
  Ok ([sha256 bytes]
      ++ map sha256 dataShards
      ++ map (fun p => sha256 (parity_shard size dataShards p)) (seq 0 EC_PARITY))%list.

(** ** computeExpectChecksums *)

(** One of the SDK's checksum helpers: not there, throwing, or returning a
    value; [None] is a value that is not an array, and the entries of an
    array are taken already normalised to bytes. *)
Inductive Helper :=
| Absent
| Failing
| Returning (v : option (list (list byte))).

Record Sdk := mkSdk {
  sdk_loads : bool;                         (* require(...) succeeds *)
  NodeAdapterModule : list byte -> Helper;  (* new sdk.NodeAdapterModule().checksumObj *)
  getCheckSums : list byte -> Helper
}.

Definition seven (v : option (list (list byte))) : option (list (list byte)) :=
  match v with
  | Some cs => if (List.length cs =? 7)%nat then Some cs else None
  | None => None
  end.

Definition computeExpectChecksums `{PF : Platform} (sdk : Sdk) (bytes : list byte)
  : Res (list (list byte)) :=
  let manual := manualChecksums bytes in
  let second :=
    match getCheckSums sdk bytes with
    | Absent => manual
    | Failing => manual
    | Returning v => match seven v with Some cs => Ok cs | None => manual end
    end in
  if negb (sdk_loads sdk) then manual
  else
    match NodeAdapterModule sdk bytes with
    | Absent => second
    | Failing => manual
    | Returning v => match seven v with Some cs => Ok cs | None => second end
    end.

(** ** Storage providers *)

(** A storage provider as the client reads it: its moniker, if it has one,
    and what [extractSpAddr] finds in it. *)
Record StorageProvider := mkSp {
  moniker : option string;
  sp_address : option string
}.

Definition to_lower (c : ascii) : ascii :=
  let n := nat_of_ascii c in
  if ((65 <=? n) && (n <=? 90))%nat then ascii_of_nat (n + 32) else c.

Fixpoint toLowerCase (s : string) : string :=
  match s with
  | EmptyString => EmptyString
  | String c t => String (to_lower c) (toLowerCase t)
  end.

Definition includes (needle s : string) : bool :=
  match String.index 0 needle s with Some _ => true | None => false end.

(** [!moniker?.toLowerCase().includes(word)] *)
Definition lacks (word : string) (sp : StorageProvider) : bool :=
  match moniker sp with
  | Some m => negb (includes word (toLowerCase m))
  | None => true
  end.

(** The address of the provider the client picks, if any. *)
Definition primary_address (spList : list StorageProvider) : option string :=
  let realSps := filter (fun sp => lacks "test" sp && lacks "qa" sp) spList in
  match (if (0 <? List.length realSps)%nat then realSps else spList) with
  | sp :: _ => sp_address sp
  | [] => None
  end.

(** ** ensureBucket *)

(** What the remote store answers during one call of the client. *)
Record Remote := mkRemote {
  client_created : bool;                       (* getSDKClient() is not null *)
  headBucket : Res unit;
  getStorageProviders : Res (list StorageProvider);
  createBucket : Res unit;
  broadcastBucket : Res unit;                  (* simulate + broadcast *)
  sdk : Sdk;
  createObject : Res unit;
  broadcastObject : Res (option string);       (* the hash of the create transaction *)
  uploadObject : Res unit;
  local_write : Res unit;                      (* mkdirSync + writeFileSync *)
  date_iso : string;                           (* new Date().toISOString() *)
  env_oracle : option string                   (* process.env.VERIS_ORACLE_V2 *)
}.

Definition ensureBucket (R : Remote) (wallet : Wallet) : M bool :=
  if negb (client_created R) then ret false
  else
    try_catch
      (do* emit EvHeadBucket in
       do* lift (headBucket R) in
       ret true)
      (fun _ =>
         try_catch
           (do* emit EvListProviders in
            let* sps := lift (getStorageProviders R) in
            match primary_address sps with
            | None => throw (mkError PlainError "SP addr not found")
            | Some spAddr =>
                do* emit EvCreateBucket in
                do* lift (createBucket R) in
                do* lift (broadcastBucket R) in
                ret true
            end)
           (fun _ => ret false)).

(** ** uploadProof *)

Record Uploaded := mkUploaded {
  objectName : string;
  greenfieldRef : string;
  onGreenfield : bool;
  localPath : string;
  viewUrl : string
}.

(** [s.slice(0, n)] *)
Definition slice0 (n : nat) (s : string) : string := substring 0 n s.

Definition object_name (timestamp txHash : string) : string :=
  "veris-proof-" ++ timestamp ++ "-" ++ slice0 10 txHash ++ ".json".

Definition record_of (R : Remote) (proofData : Prover.ProofData) (txHash : string)
  (wallet : Wallet) : ArchiveRecord :=
  mkRecord "groth16-bn128" "price_commitment.circom" "v2"
    (Prover.price proofData) (Prover.priceUSD proofData)
    (Prover.timestamp proofData) (Prover.commitment proofData)
    (Prover.proof proofData) (Prover.publicSignals proofData)
    (Prover.salt proofData) (Prover.sources proofData)
    txHash "BSC Testnet (97)" (env_oracle R)
    ("https://testnet.bscscan.com/tx/" ++ txHash)
    (date_iso R) (address wallet).

(** The remote part of [uploadProof]: [true] when the object is on the
    remote store, [false] when there is no client or anything fails. *)
Definition remote_upload `{PF : Platform} (R : Remote) (objectName : string)
  (bytes : list byte) : M bool :=
  if client_created R then
    try_catch
      (do* emit EvListProviders in
       let* sps := lift (getStorageProviders R) in
       match primary_address sps with
       | None => throw (mkError PlainError "SP addr not found")
       | Some spAddr =>
           let* expectChecksums := lift (computeExpectChecksums (sdk R) bytes) in
           do* emit (EvCreateObject objectName expectChecksums) in
           do* lift (createObject R) in
           let* createRes := lift (broadcastObject R) in
           do* emit (EvUploadObject objectName) in
           do* lift (uploadObject R) in
           ret true
       end)
      (fun _ => ret false)
  else ret false.

(** [wallet] is an object at every call: building the record reads
    [wallet.address] before the [client && wallet] test is reached. *)
Definition uploadProof `{PF : Platform} (R : Remote) (proofData : Prover.ProofData)
  (txHash : string) (wallet : Wallet) : M Uploaded :=
  let objectName := object_name (Prover.timestamp proofData) txHash in
  let record := record_of R proofData txHash wallet in
  let greenfieldRef := keccak256 (utf8 objectName) in
  let text := JSON_stringify record in
  let bytes := utf8 text in
  let path := LOCAL_DIR ++ "/" ++ objectName in
  (* Always persist locally first (safety net) *)
  do* emit (EvLocalWrite path text) in
  do* lift (local_write R) in
  do* put_file path text in
  let* onGreenfield := remote_upload R objectName bytes in
  ret (mkUploaded objectName greenfieldRef onGreenfield path
         ("https://testnet.greenfield.bnbchain.org/buckets/" ++ BUCKET ++ "/" ++ objectName)).

(** ** toUint8Array *)

(** A checksum as a helper of the SDK may return it: a Uint8Array (a
    Buffer is one), a string, or an array of integers. *)
Inductive Checksum :=
| AsBytes (bs : list byte)
| AsString (s : string)
| AsArray (ns : list Z).

(** [Buffer.from(hex, "hex")]: a byte for each two hexadecimal digits, up to
    the first pair that is not made of two such digits; a last character
    without partner is dropped. *)
Fixpoint Buffer_from_hex (s : string) : list byte :=
  match s with
  | String a (String b t) =>
      match hexdigit_of a, hexdigit_of b with
      | Some x, Some y => byte_of_nat (Z.to_nat (16 * x + y)) :: Buffer_from_hex t
      | _, _ => []
      end
  | _ => []
  end.

(** [s.slice(n)] on a string *)
Definition slice_from (n : nat) (s : string) : string :=
  substring n (String.length s - n) s.

Definition toUint8Array (c : Checksum) : list byte :=
  match c with
  | AsBytes bs => bs
  | AsString s =>
      let hex := if prefix "0x" s then slice_from 2 s else s in
      Buffer_from_hex hex
  | AsArray ns => map (fun n => byte_of_nat (Z.to_nat (n mod 256))) ns
  end.

(** ** listProofs *)

Definition endsWith (suffix s : string) : bool :=
  (String.length suffix <=? String.length s)%nat
  && String.eqb (substring (String.length s - String.length suffix)
                   (String.length suffix) s) suffix.

(** The index that [slice] makes of an integer argument, on an array of
    length [n]. *)
Definition relative (n : nat) (i : Z) : nat :=
  if (i <? 0)%Z then Z.to_nat (Z.max (Z.of_nat n + i) 0) else Nat.min (Z.to_nat i) n.

(** [l.slice(start, stop)]; [None] is an omitted [stop]. *)
Definition slice {A} (l : list A) (start : Z) (stop : option Z) : list A :=
  let n := List.length l in
  let k := relative n start in
  let final := match stop with Some e => relative n e | None => n end in
  firstn (final - k) (skipn k l).

Record Listed := mkListed {
  l_name : string;
  l_size : option number;
  l_source : string
}.

(** What one call of [listProofs] sees of the outside.  An object of the
    remote listing is its name and size, or [None] when it lacks the
    [objectInfo] that the client reads. *)
Record Lister := mkLister {
  lister_client : bool;                                 (* getSDKClient() is not null *)
  listObjects : Res (list (option (string * number)));  (* objectList.objects *)
  readdir : option (list string)                        (* readdirSync, if LOCAL_DIR exists *)
}.

(** The elements of an array when all of them are there. *)
Fixpoint all_some {A} (l : list (option A)) : option (list A) :=
  match l with
  | [] => Some []
  | Some a :: t =>
      match all_some t with
      | Some r => Some (a :: r)
      | None => None
      end
  | None :: _ => None
  end.

Definition listProofs (L : Lister) (limit : Z) : list Listed :=
  let local :=
    match readdir L with
    | None => []
    | Some files =>
        map (fun f => mkListed f None "local")
          (rev (slice (filter (endsWith ".json") files) (- limit) None))
    end in
  if lister_client L then
    match listObjects L with
    | Ok objects =>
        match all_some (slice objects 0 (Some limit)) with
        | Some picked =>
            map (fun o => mkListed (fst o) (Some (snd o)) "greenfield") picked
        | None => local
        end
    | Throw _ => local
    end
  else local.

End Greenfield.

(* ================================================================== *)
(** * backend/zk/commitment.js *)
(* ================================================================== *)

Module Commitment.
Import JS.

(** [ethers.solidityPacked(["uint256", "uint256", "bytes32"], [a, b, c])]:
    the packed bytes, or the error of the library (a negative or too large
    number, a salt that is not 32 bytes). *)
Definition Packer : Type := Z -> Z -> string -> Res (list byte).

Record PriceProof := mkPriceProof {
  p_price : string;
  p_priceUSD : number;
  p_timestamp : Z;
  p_commitment : string;
  p_source : string
}.

Record Witness := mkWitness {
  w_salt : string;
  w_price8dec : string;
  w_timestamp : Z;
  w_commitment : string
}.

(** [now] is [Math.floor(Date.now() / 1000)] and [rng] the bytes that
    [crypto.randomBytes] hands out. *)
Definition generatePriceCommitment `{PF : Greenfield.Platform} (pack : Packer) (now : Z)
  (rng : nat -> byte) (priceUSD : number) (source : string) : Res (PriceProof * Witness) :=
  let timestamp := now in
  price8dec <-- Prover.BigInt_of_number (Math_round (mul priceUSD (Fin (inject_Z (10 ^ 8))))) ;;
  let salt := "0x" ++ Prover.toString_hex (Prover.randomBytes 32 rng 0) in
  ts <-- Prover.BigInt_of_number (Fin (inject_Z timestamp)) ;;
  packed <-- pack price8dec ts salt ;;
  let commitment := Greenfield.keccak256 packed in
  Ok (mkPriceProof (Prover.BigInt_toString price8dec) priceUSD timestamp commitment source,
      mkWitness salt (Prover.BigInt_toString price8dec) timestamp commitment).

Definition verifyCommitment `{PF : Greenfield.Platform} (pack : Packer) (price8dec : string)
  (timestamp : Z) (salt commitment : string) : Res bool :=
  p <-- BigInt_of_string price8dec ;;
  ts <-- Prover.BigInt_of_number (Fin (inject_Z timestamp)) ;;
  packed <-- pack p ts salt ;;
  Ok (String.eqb (Greenfield.keccak256 packed) commitment).

End Commitment.

(* ================================================================== *)
(** * backend/oracle/agent.js *)
(* ================================================================== *)

Module Agent.
Import JS Sys.

Definition RPC_LIST : list string :=
  [ "https://data-seed-prebsc-1-s1.binance.org:8545";
    "https://data-seed-prebsc-2-s1.binance.org:8545";
    "https://data-seed-prebsc-1-s2.binance.org:8545";
    "https://bsc-testnet.drpc.org" ].

Record Receipt := mkReceipt { blockNumber : Z; gasUsed : Z }.

(** What [submitPriceWithProof] resolves to: a transaction, whose hash
    ethers renders as [0x] and hexadecimal digits, and what waiting for
    its receipt gives. *)
Record TxResponse := mkTx {
  tx_digest : list byte;
  wait : Res Receipt
}.

Definition tx_hash (tx : TxResponse) : string := "0x" ++ Prover.toString_hex (tx_digest tx).

(** Everything outside the agent.  A service that the agent may call more
    than once answers by the number of the call, counted from 0. *)
Record World := mkWorld {
  rpc_alive : nat -> string -> bool;
  network : nat -> string -> PriceFetcher.Response;
  prover : nat -> Prover.Env;
  verifier : Prover.Env;
  wallet : Greenfield.Wallet;
  bucket : Greenfield.Remote;
  store : nat -> Greenfield.Remote;
  submitPriceWithProof : nat -> SubmitArgs -> Res TxResponse;
  write_submission : Res unit;
  elapsed_ms : Z
}.

Record Submission := mkSubmission {
  r_priceUSD : number;
  r_commitment : string;
  r_txHash : string;
  r_block : Z;
  r_zkVerified : bool;
  r_greenfieldRef : string;
  r_onGreenfield : bool;
  r_sources : option (list string);
  r_elapsedMs : Z
}.

(** ** RPC failover *)

Fixpoint probe (alive : string -> bool) (rpcs : list string) : M string :=
  match rpcs with
  | [] => throw (mkError PlainError "All RPC endpoints unreachable")
  | rpc :: rest =>
      do* emit (EvProbe rpc (alive rpc)) in
      if alive rpc then ret rpc else probe alive rest
  end.

Definition getProvider (w : World) : M string :=
  let* n := next_call c_provider count_provider in
  probe (rpc_alive w n) RPC_LIST.

(** ** Retry *)

(** The loop of [retry] from its [i]-th iteration, with [todo] iterations
    left; leaving the loop returns [undefined]. *)
Fixpoint retry_loop {A} (fn : M A) (attempts i todo : nat) : M (option A) :=
  match todo with
  | O => ret None
  | S todo' =>
      try_catch
        (let* a := fn in ret (Some a))
        (fun e =>
           if (i =? attempts)%nat then throw e
           else
             do* emit (EvSleep (1000 * 2 ^ Z.of_nat i)) in
             retry_loop fn attempts (S i) todo')
  end.

Definition retry {A} (fn : M A) (attempts : nat) : M (option A) :=
  retry_loop fn attempts 1 attempts.

(** Reading a property of what [retry] returned; it is [undefined] only
    for an attempt count of 0, which no call site uses. *)
Definition defined {A} (v : option A) : M A :=
  match v with
  | Some a => ret a
  | None => throw (mkError TypeError "Cannot read properties of undefined")
  end.

(** ** The steps of a cycle *)

Definition fetch_step (w : World) (overridePrice : option string) : M PriceFetcher.Aggregated :=
  let* n := next_call c_fetch count_fetch in
  do* emit EvFetchPrices in
  lift (PriceFetcher.fetchAggregatedPrice overridePrice (network w n)).

Definition prove_step (w : World) (priceUSD : number) : M Prover.ProofData :=
  let* n := next_call c_prove count_prove in
  do* emit EvProve in
  lift (Prover.generateProof (prover w n) priceUSD None).

Definition verify_step (w : World) (pd : Prover.ProofData) : M bool :=
  let r := Prover.verifyProof (verifier w) (Prover.proof pd) (Prover.publicSignals pd) in
  do* emit (EvVerify (Prover.proof pd) (Prover.publicSignals pd) r) in
  lift r.

Definition upload_step `{PF : Greenfield.Platform} (w : World) (pd : Prover.ProofData)
  (txHash : string) : M Greenfield.Uploaded :=
  let* n := next_call c_upload count_upload in
  Greenfield.uploadProof (store w n) pd txHash (wallet w).

Definition send_step (w : World) (pd : Prover.ProofData)
  (proof_a : list Z) (proof_b : list (list Z)) (proof_c : list Z) (ref : string)
  : M TxResponse :=
  let* price := lift (BigInt_of_string (Prover.price pd)) in
  let* timestamp := lift (BigInt_of_string (Prover.timestamp pd)) in
  let args := mkArgs price timestamp (Prover.commitment pd) proof_a proof_b proof_c ref in
  let* n := next_call c_send count_send in
  do* emit (EvSubmit args) in
  lift (submitPriceWithProof w n args).

(** [x.toFixed(2)], below 1e21. *)
Definition toFixed2 (x : number) : string :=
  match x with
  | Fin q =>
      let n := Qfloor (Qabs q * 100 + (1 # 2)) in
      let cents := Prover.BigInt_toString (n mod 100) in
      (if Qneg_b q then "-" else "") ++ Prover.BigInt_toString (n / 100) ++ "."
        ++ (if (n mod 100 <? 10)%Z then "0" ++ cents else cents)
  | PInf => "Infinity"
  | NInf => "-Infinity"
  | NaN => "NaN"
  end.

Definition source_label (s : PriceFetcher.FetchResult) : string :=
  if PriceFetcher.ok s
  then PriceFetcher.name s ++ ":$" ++ toFixed2 (PriceFetcher.price_of s)
  else PriceFetcher.name s ++ ":fail".

Definition with_sources (pd : Prover.ProofData) (labels : list string) : Prover.ProofData :=
  Prover.mkProofData (Prover.proof pd) (Prover.publicSignals pd) (Prover.commitment pd)
    (Prover.salt pd) (Prover.price pd) (Prover.timestamp pd) (Prover.priceUSD pd)
    (Prover.calldataRaw pd) (Some labels).

(** [rows[i][j]], or [undefined]; reading [rows[i][j]] when [rows[i]] is
    missing is a TypeError. *)
Definition elem2 (rows : list (list string)) (i j : nat) : Res (option string) :=
  match nth_error rows i with
  | Some row => Ok (nth_error row j)
  | None => Throw (mkError TypeError "Cannot read properties of undefined")
  end.

(** [BigInt(l[i])] and [BigInt(rows[i][j])] *)
Definition BigInt_at (l : list string) (i : nat) : Res Z := BigInt_of_elem (nth_error l i).
Definition BigInt_at2 (rows : list (list string)) (i j : nat) : Res Z :=
  v <-- elem2 rows i j ;; BigInt_of_elem v.

(** ** One full submission cycle *)

Definition LOCAL_FAILED : Error :=
  mkError PlainError "Local proof verification FAILED — aborting submission".

(** Steps 1 to 3: provider, aggregated price, proof with its source labels. *)
Definition acquire (w : World) (overridePrice : option string)
  : M (PriceFetcher.Aggregated * Prover.ProofData) :=
  let* provider := bind (retry (getProvider w) 3) defined in
  let* priceResult := bind (retry (fetch_step w overridePrice) 3) defined in
  let* generated := bind (retry (prove_step w (PriceFetcher.agg_price priceResult)) 2) defined in
  ret (priceResult,
       with_sources generated (map source_label (PriceFetcher.agg_sources priceResult))).

(** Step 4: local verify, never submit if local check fails. *)
Definition verify_gate (w : World) (proofData : Prover.ProofData) : M unit :=
  let* localOk := verify_step w proofData in
  if negb localOk then throw LOCAL_FAILED else ret tt.

(** Step 5: parse proof components for Solidity. *)
Definition parse_proof (pf : Prover.Groth16Proof) : Res (list Z * list (list Z) * list Z) :=
  a0 <-- BigInt_at (Prover.pi_a pf) 0 ;;
  a1 <-- BigInt_at (Prover.pi_a pf) 1 ;;
  b01 <-- BigInt_at2 (Prover.pi_b pf) 0 1 ;;
  b00 <-- BigInt_at2 (Prover.pi_b pf) 0 0 ;;
  b11 <-- BigInt_at2 (Prover.pi_b pf) 1 1 ;;
  b10 <-- BigInt_at2 (Prover.pi_b pf) 1 0 ;;
  c0 <-- BigInt_at (Prover.pi_c pf) 0 ;;
  c1 <-- BigInt_at (Prover.pi_c pf) 1 ;;
  Ok ([a0; a1], [[b01; b00]; [b11; b10]], [c0; c1]).

(** Step 6: upload to Greenfield first, get the reference for on-chain
    anchoring; the hash fallback when that throws. *)
Definition pre_archive `{PF : Greenfield.Platform} (w : World) (proofData : Prover.ProofData)
  : M (string * bool) :=
  try_catch
    (let* _ := Greenfield.ensureBucket (bucket w) (wallet w) in
     let* up := upload_step w proofData ("pending-" ++ Prover.timestamp proofData) in
     ret (Greenfield.greenfieldRef up, Greenfield.onGreenfield up))
    (fun _ =>
       ret (Greenfield.keccak256
              (Greenfield.utf8 ("veris-proof-" ++ Prover.timestamp proofData)), false)).

(** Step 7: submit on-chain, under [retry]. *)
Definition submit_phase (w : World) (proofData : Prover.ProofData)
  (proof_a : list Z) (proof_b : list (list Z)) (proof_c : list Z) (ref : string)
  : M TxResponse :=
  bind (retry (send_step w proofData proof_a proof_b proof_c ref) 3) defined.

(** Step 8: re-save the Greenfield record with the real transaction hash. *)
Definition post_archive `{PF : Greenfield.Platform} (w : World) (proofData : Prover.ProofData)
  (tx : TxResponse) : M unit :=
  try_catch
    (let* _ := upload_step w proofData (tx_hash tx) in ret tt)
    (fun _ => ret tt).

(** What follows a local verification that passed. *)
Definition publish `{PF : Greenfield.Platform} (w : World)
  (priceResult : PriceFetcher.Aggregated) (proofData : Prover.ProofData) : M Submission :=
  let* parsed := lift (parse_proof (Prover.proof proofData)) in
  let '(proof_a, proof_b, proof_c) := parsed in
  let* gfResult := pre_archive w proofData in
  let* tx := submit_phase w proofData proof_a proof_b proof_c (fst gfResult) in
  do* emit (EvWait (tx_hash tx)) in
  let* receipt := lift (wait tx) in
  do* post_archive w proofData tx in
  do* lift (write_submission w) in
  ret (mkSubmission (PriceFetcher.agg_price priceResult) (Prover.commitment proofData)
         (tx_hash tx) (blockNumber receipt) true (fst gfResult) (snd gfResult)
         (Prover.sources proofData) (elapsed_ms w)).

(** [submitOnce(overridePrice)].  The log lines and the banner it prints are
    not part of the model. *)
Definition submitOnce `{PF : Greenfield.Platform} (w : World) (overridePrice : option string)
  : M Submission :=
  let* got := acquire w overridePrice in
  do* verify_gate w (snd got) in
  publish w (fst got) (snd got).

End Agent.

(* ================================================================== *)
(** * Reference definitions *)
(* ================================================================== *)

(** These definitions follow the specification's words; the code's
    functions are compared with them below.  The aggregation is specified
    on the rational values of the successful sources. *)
Module Reference.













(** The payload padded with zeros to four shards, its [i]-th data shard,
    and the XOR of four bytes. *)
Definition padded (bytes : list byte) : list byte :=
  let size := Greenfield.shardSize (List.length bytes) in
  bytes ++ repeat x00 (4 * size - List.length bytes).

Definition shard_of (bytes : list byte) (i : nat) : list byte :=
  let size := Greenfield.shardSize (List.length bytes) in
  firstn size (skipn (i * size) (padded bytes)).

Definition xor4 (a b c d : byte) : byte :=
  Greenfield.byte_xor (Greenfield.byte_xor (Greenfield.byte_xor a b) c) d.

(** Whether every remote step of an upload succeeds. *)
Definition is_ok {A} (r : JS.Res A) : bool :=
  match r with JS.Ok _ => true | JS.Throw _ => false end.

Definition remote_succeeds `{PF : Greenfield.Platform} (R : Greenfield.Remote)
  (bytes : list byte) : bool :=
  Greenfield.client_created R &&
  match Greenfield.getStorageProviders R with
  | JS.Ok sps =>
      match Greenfield.primary_address sps with
      | Some _ =>
          is_ok (Greenfield.computeExpectChecksums (Greenfield.sdk R) bytes)
          && is_ok (Greenfield.createObject R)
          && is_ok (Greenfield.broadcastObject R)
          && is_ok (Greenfield.uploadObject R)
      | None => false
      end
  | JS.Throw _ => false
  end.


(** Classes of events. *)
Definition early_event (e : Sys.Event) : Prop :=
  match e with
  | Sys.EvProbe _ _ | Sys.EvSleep _ | Sys.EvFetchPrices | Sys.EvProve => True
  | _ => False
  end.

Definition remote_event (e : Sys.Event) : Prop :=
  match e with
  | Sys.EvHeadBucket | Sys.EvCreateBucket | Sys.EvListProviders
  | Sys.EvCreateObject _ _ | Sys.EvUploadObject _ => True
  | _ => False
  end.

Definition archive_event (e : Sys.Event) : Prop :=
  match e with
  | Sys.EvLocalWrite _ _ => True
  | _ => remote_event e
  end.

(** [s'] is [s] after more events, all of them in [Q]. *)
Definition extends (Q : Sys.Event -> Prop) (s s' : Sys.State) : Prop :=
  exists t, Sys.trace s' = (Sys.trace s ++ t)%list /\ Forall Q t.

(** The events of the submission of [pd] with the given proof arguments
    and archive reference: submissions with exactly these arguments, and
    the pauses between them. *)
Definition submit_of (pd : Prover.ProofData) (proof_a : list Z)
  (proof_b : list (list Z)) (proof_c : list Z) (ref : string) (e : Sys.Event) : Prop :=
  match e with
  | Sys.EvSleep _ => True
  | Sys.EvSubmit a =>
      JS.BigInt_of_string (Prover.price pd) = JS.Ok (Sys.s_price a)
      /\ JS.BigInt_of_string (Prover.timestamp pd) = JS.Ok (Sys.s_timestamp a)
      /\ Sys.s_commitment a = Prover.commitment pd
      /\ Sys.s_proof_a a = proof_a
      /\ Sys.s_proof_b a = proof_b
      /\ Sys.s_proof_c a = proof_c
      /\ Sys.s_greenfieldRef a = ref
  | _ => False
  end.

(** The names under which a cycle archives its proof, before and after
    the submission, the preimage of the fallback reference, and the
    reference that the pre-submission step yields in state [s]. *)
Definition pre_name (ts : string) : string :=
  Greenfield.object_name ts ("pending-" ++ ts).

Definition post_name (ts : string) (tx : Agent.TxResponse) : string :=
  Greenfield.object_name ts (Agent.tx_hash tx).

Definition fallback_preimage (ts : string) : string := "veris-proof-" ++ ts.

Definition archive_ref `{PF : Greenfield.Platform} (w : Agent.World)
  (pd : Prover.ProofData) (s : Sys.State) : string :=
  match Greenfield.local_write (Agent.store w (Sys.c_upload (Sys.calls s))) with
  | JS.Ok _ => Greenfield.keccak256 (Greenfield.utf8 (pre_name (Prover.timestamp pd)))
  | JS.Throw _ =>
      Greenfield.keccak256 (Greenfield.utf8 (fallback_preimage (Prover.timestamp pd)))
  end.

(** The events that follow a local verification that passed. *)
Definition publish_event (pd : Prover.ProofData) (proof_a : list Z)
  (proof_b : list (list Z)) (proof_c : list Z) (ref : string) (e : Sys.Event) : Prop :=
  archive_event e \/ submit_of pd proof_a proof_b proof_c ref e
  \/ (exists h, e = Sys.EvWait h).

(** The arguments of the submissions in a trace, in order. *)
Definition submissions (t : list Sys.Event) : list Sys.SubmitArgs :=
  flat_map (fun e => match e with Sys.EvSubmit a => [a] | _ => [] end) t.

(** [s'] has seen as many uploads as [s]. *)
Definition same_uploads (s s' : Sys.State) : Prop :=
  Sys.c_upload (Sys.calls s') = Sys.c_upload (Sys.calls s).

(** Whatever the state and the outcome, [m] takes a state to one related
    to it by [R]. *)
Definition keeps {A} (R : Sys.State -> Sys.State -> Prop) (m : Sys.M A) : Prop :=
  forall s, R s (snd (m s)).

(** [m] only adds events of [Q], and no upload. *)
Definition quiet (Q : Sys.Event -> Prop) (s s' : Sys.State) : Prop :=
  extends Q s s' /\ same_uploads s s'.

Definition emits {A} (Q : Sys.Event -> Prop) (m : Sys.M A) : Prop :=
  keeps (quiet Q) m.

(** The pauses in a trace, in order, and the probes of a list of
    endpoints. *)
Definition sleeps (t : list Sys.Event) : list Z :=
  flat_map (fun e => match e with Sys.EvSleep ms => [ms] | _ => [] end) t.

Definition probes (alive : string -> bool) (rpcs : list string) : list Sys.Event :=
  map (fun rpc => Sys.EvProbe rpc (alive rpc)) rpcs.

(** What a retry hands back, as an outcome of the retried function:
    nothing when it returns [undefined]. *)
Definition handed_back {A} (r : JS.Res (option A) * Sys.State)
  : option (JS.Res A * Sys.State) :=
  match r with
  | (JS.Ok (Some a), s) => Some (JS.Ok a, s)
  | (JS.Ok None, _) => None
  | (JS.Throw e, s) => Some (JS.Throw e, s)
  end.

Definition no_sleep (e : Sys.Event) : Prop :=
  match e with Sys.EvSleep _ => False | _ => True end.




(** The digits of a decimal numeral. *)
Fixpoint digits_of (u : Decimal.uint) : list Z :=
  match u with
  | Decimal.Nil => []
  | Decimal.D0 d => 0 :: digits_of d
  | Decimal.D1 d => 1 :: digits_of d
  | Decimal.D2 d => 2 :: digits_of d
  | Decimal.D3 d => 3 :: digits_of d
  | Decimal.D4 d => 4 :: digits_of d
  | Decimal.D5 d => 5 :: digits_of d
  | Decimal.D6 d => 6 :: digits_of d
  | Decimal.D7 d => 7 :: digits_of d
  | Decimal.D8 d => 8 :: digits_of d
  | Decimal.D9 d => 9 :: digits_of d
  end%Z.

(** The classes of events. *)
Inductive EvClass :=
| CProbe | CSleep | CFetch | CProve | CVerify | CHeadBucket | CCreateBucket
| CLocalWrite | CListProviders | CCreateObject | CUploadObject | CSubmit | CWait.

Definition class_of (e : Sys.Event) : EvClass :=
  match e with
  | Sys.EvProbe _ _ => CProbe
  | Sys.EvSleep _ => CSleep
  | Sys.EvFetchPrices => CFetch
  | Sys.EvProve => CProve
  | Sys.EvVerify _ _ _ => CVerify
  | Sys.EvHeadBucket => CHeadBucket
  | Sys.EvCreateBucket => CCreateBucket
  | Sys.EvLocalWrite _ _ => CLocalWrite
  | Sys.EvListProviders => CListProviders
  | Sys.EvCreateObject _ _ => CCreateObject
  | Sys.EvUploadObject _ => CUploadObject
  | Sys.EvSubmit _ => CSubmit
  | Sys.EvWait _ => CWait
  end.

Definition class_index (c : EvClass) : nat :=
  match c with
  | CProbe => 0 | CSleep => 1 | CFetch => 2 | CProve => 3 | CVerify => 4
  | CHeadBucket => 5 | CCreateBucket => 6 | CLocalWrite => 7 | CListProviders => 8
  | CCreateObject => 9 | CUploadObject => 10 | CSubmit => 11 | CWait => 12
  end.

(** 1 when an event of class [c'] is one of class [c], 0 otherwise. *)
Definition cost (c c' : EvClass) : nat :=
  if (class_index c' =? class_index c)%nat then 1 else 0.

(** How many events of class [c] the trace [t] has. *)
Fixpoint occurrences (c : EvClass) (t : list Sys.Event) : nat :=
  match t with
  | [] => 0
  | e :: t' => cost c (class_of e) + occurrences c t'
  end.

(** [m] adds at most [k] events of class [c] to the trace. *)
Definition spends {A} (c : EvClass) (k : nat) (m : Sys.M A) : Prop :=
  forall s, exists t,
    Sys.trace (snd (m s)) = (Sys.trace s ++ t)%list /\ (occurrences c t <= k)%nat.

(** The most events of each class that one cycle can cause. *)
Definition budget (c : EvClass) : nat :=
  match c with
  | CProbe => 12 | CSleep => 7 | CFetch => 3 | CProve => 2 | CVerify => 1
  | CHeadBucket => 1 | CCreateBucket => 1 | CLocalWrite => 2 | CListProviders => 3
  | CCreateObject => 2 | CUploadObject => 2 | CSubmit => 3 | CWait => 1
  end.

(** The error of getProvider. *)
Definition ALL_DOWN : JS.Error := JS.mkError JS.PlainError "All RPC endpoints unreachable".

(** The error of [Buffer.copy] on a start beyond the source. *)
Definition OUT_OF_RANGE : JS.Error :=
  JS.mkError JS.RangeError "The value of sourceStart is out of range".

(** A provider whose moniker names neither a test nor a QA node. *)
Definition real_provider (sp : Greenfield.StorageProvider) : bool :=
  Greenfield.lacks "test" sp && Greenfield.lacks "qa" sp.

(** The local part of a listing. *)
Definition local_listing (L : Greenfield.Lister) (limit : Z) : list Greenfield.Listed :=
  match Greenfield.readdir L with
  | None => []
  | Some files =>
      map (fun f => Greenfield.mkListed f None "local")
        (rev (Greenfield.slice (filter (Greenfield.endsWith ".json") files) (- limit) None))
  end.

(** The [n] bytes whose big-endian value is [v], and the random stream
    that hands them out first. *)
Definition byte_of_Z (z : Z) : byte :=
  match Byte.of_N (Z.to_N z) with Some b => b | None => x00 end.

Fixpoint encode (n : nat) (v : Z) : list byte :=
  match n with
  | O => []
  | S n' => encode n' (v / 256) ++ [byte_of_Z (v mod 256)]
  end.

Definition stream_of (bs : list byte) : nat -> byte := fun i => nth i bs x00.

End Reference.

(* ================================================================== *)
(** * A small world to run the model in *)
(* ================================================================== *)

(** Stand-ins for the outside: the hash functions here are not the real
    ones, only functions of the right shape, and the engine hands out a
    fixed proof.  They serve to run the model on concrete inputs. *)
Module Demo.
Import JS Sys.

Definition checksum32 (bs : list byte) : list byte :=
  (repeat x00 31 ++ [Greenfield.byte_of_nat (List.length bs)])%list.

#[export] Instance platform : Greenfield.Platform := {
  Greenfield.sha256 := checksum32;
  Greenfield.keccak256 := fun bs => "0x" ++ Prover.toString_hex bs;
  Greenfield.JSON_stringify := fun r =>
    "{ txHash: " ++ Greenfield.rec_txHash r ++ ", salt: " ++ Greenfield.rec_salt r ++ " }"
}.

Definition proof : Prover.Groth16Proof :=
  Prover.mkProof ["11"; "12"; "1"] [["21"; "22"]; ["23"; "24"]; ["1"; "0"]] ["31"; "32"; "1"].

Definition engine (verdict : Res bool) : Prover.Env :=
  Prover.mkEnv true true 1772197104 (fun _ => x2a)
    (fun input => Ok (proof, ["77"; Prover.in_price input; Prover.in_timestamp input]))
    (fun _ _ => Ok "calldata")
    (Ok tt)
    (fun _ _ => verdict).

Definition proofData : Prover.ProofData :=
  Prover.mkProofData proof ["77"; "35000000000"; "1772197104"] "0x4d" "42"
    "35000000000" "1772197104" (Fin 350) "calldata" None.

Definition offline (write : Res unit) : Greenfield.Remote :=
  Greenfield.mkRemote false (Ok tt) (Ok []) (Ok tt) (Ok tt)
    (Greenfield.mkSdk false (fun _ => Greenfield.Absent) (fun _ => Greenfield.Absent))
    (Ok tt) (Ok None) (Ok tt) write "2026-02-27T12:58:24.000Z" None.

(** A store that is reachable but refuses the upload. *)
Definition refusing : Greenfield.Remote :=
  Greenfield.mkRemote true (Ok tt)
    (Ok [Greenfield.mkSp (Some "sp-one") (Some "0xsp")]) (Ok tt) (Ok tt)
    (Greenfield.mkSdk false (fun _ => Greenfield.Absent) (fun _ => Greenfield.Absent))
    (Ok tt) (Ok None) (Throw (mkError NetworkError "upload refused")) (Ok tt)
    "2026-02-27T12:58:24.000Z" None.

Definition quotes (src : string) : PriceFetcher.Response :=
  if String.eqb src "Binance" then PriceFetcher.Parsed (Fin 350)
  else if String.eqb src "Coinbase" then PriceFetcher.Parsed (Fin 351)
  else if String.eqb src "Kraken" then PriceFetcher.Parsed (Fin (699 # 2))
  else PriceFetcher.Parsed (Fin 500).

(** Two sources answer, 100 and 200; the others time out. *)
Definition split (src : string) : PriceFetcher.Response :=
  if String.eqb src "Binance" then PriceFetcher.Parsed (Fin 100)
  else if String.eqb src "Coinbase" then PriceFetcher.Parsed (Fin 200)
  else PriceFetcher.Threw "This operation was aborted".



(** A stand-in for the packing of ethers. *)
Definition pack : Commitment.Packer := fun p t salt =>
  if (p <? 0)%Z then Throw (mkError RangeError "unsigned value cannot be negative")
  else Ok (Greenfield.utf8 (Prover.BigInt_toString p ++ ":" ++ Prover.BigInt_toString t
                            ++ ":" ++ salt)).

Definition tx : Agent.TxResponse :=
  Agent.mkTx (repeat xab 32) (Ok (Agent.mkReceipt 100 21000)).

Definition REVERT : Error := mkError CallException "execution reverted".

(** A world where everything works, given the verdict of the local check,
    the outcome of local writes and the answers of the chain. *)
Definition world (verdict : Res bool) (write : Res unit)
  (chain : nat -> Res Agent.TxResponse) : Agent.World :=
  Agent.mkWorld (fun _ _ => true) (fun _ => quotes) (fun _ => engine verdict)
    (engine verdict) (Greenfield.mkWallet "0xwallet" "0xkey")
    (offline write) (fun _ => offline write) (fun n _ => chain n) (Ok tt) 1500.

(** The chain rejects the first submission and accepts the second. *)
Definition revert_once (n : nat) : Res Agent.TxResponse :=
  match n with O => Throw REVERT | _ => Ok tx end.

End Demo.

(* ================================================================== *)
(** * Properties of the price aggregation *)
(* ================================================================== *)

Section Aggregation.
Import JS PriceFetcher Reference.

(** ** The code's arithmetic on finite values *)






















(** ** The successful sources *)







(** ** The aggregation in terms of the reference definitions *)


(** ** Claims on the aggregation *)






End Aggregation.

(* ================================================================== *)
(** * Properties of the salt *)
(* ================================================================== *)

Section Salt.
Import JS Prover Reference.

Lemma bindR_Ok {A B} (m : Res A) (k : A -> Res B) (b : B) :
  bindR m k = Ok b -> exists a, m = Ok a /\ k a = Ok b.
Proof. destruct m as [a|e]; cbn; [eauto|discriminate]. Qed.

Lemma draw_salt_first (random : nat -> byte) (pos : nat) :
  draw_salt random pos = Ok (be_value (randomBytes 31 random pos), (pos + 31)%nat).
Proof.
  funelim (draw_salt random pos).
  all: match goal with
       | Hc : salt_candidate ?r ?p = _ |- _ =>
           pose proof (salt_candidate_value r p) as Hv;
           pose proof (salt_candidate_below r p) as Hb
       end.
  - congruence.
  - specialize (Hb _ Hc). pose proof pow248_below_modulus. lia.
  - congruence.
Qed.

Lemma byte_val_of_Z (z : Z) : (0 <= z < 256)%Z -> byte_val (byte_of_Z z) = z.
Proof.
  intros Hz. unfold byte_val, byte_of_Z.
  destruct (Byte.of_N (Z.to_N z)) as [b|] eqn:E.
  - apply Byte.to_of_N in E. rewrite E. lia.
  - apply Byte.of_N_None_iff in E. lia.
Qed.

Lemma be_value_snoc (bs : list byte) (b : byte) :
  be_value (bs ++ [b]) = (256 * be_value bs + byte_val b)%Z.
Proof. unfold be_value. now rewrite fold_left_app. Qed.

Lemma encode_length (n : nat) (v : Z) : List.length (encode n v) = n.
Proof.
  revert v. induction n as [|n IH]; intros v; [reflexivity|].
  cbn [encode]. rewrite length_app, IH. cbn. lia.
Qed.

Lemma be_value_encode (n : nat) (v : Z) :
  (0 <= v < 256 ^ Z.of_nat n)%Z -> be_value (encode n v) = v.
Proof.
  revert v. induction n as [|n IH]; intros v Hv.
  - cbn in *. lia.
  - cbn [encode]. rewrite be_value_snoc.
    rewrite Nat2Z.inj_succ, Z.pow_succ_r in Hv by lia.
    rewrite IH.
    + rewrite byte_val_of_Z by (apply Z.mod_pos_bound; lia).
      pose proof (Z.div_mod v 256). lia.
    + split; [apply Z.div_pos; lia|].
      apply Z.div_lt_upper_bound; lia.
Qed.

Lemma byte_of_Z_val (b : byte) : byte_of_Z (byte_val b) = b.
Proof.
  unfold byte_of_Z, byte_val. rewrite N2Z.id. now rewrite Byte.of_to_N.
Qed.

Lemma encode_be_value (bs : list byte) : encode (List.length bs) (be_value bs) = bs.
Proof.
  induction bs as [|b bs IH] using rev_ind; [reflexivity|].
  rewrite length_app, Nat.add_comm. cbn [List.length Nat.add encode].
  rewrite be_value_snoc. pose proof (byte_val_range b) as Hb.
  replace ((256 * be_value bs + byte_val b) / 256)%Z with (be_value bs)
    by (apply Z.div_unique with (r := byte_val b); lia).
  replace ((256 * be_value bs + byte_val b) mod 256)%Z with (byte_val b)
    by (apply Z.mod_unique with (q := be_value bs); lia).
  now rewrite IH, byte_of_Z_val.
Qed.

Lemma randomBytes_stream (bs : list byte) :
  randomBytes (List.length bs) (stream_of bs) 0 = bs.
Proof.
  unfold randomBytes, stream_of.
  apply nth_ext with (d := x00) (d' := x00).
  - now rewrite length_map, length_seq.
  - intros i Hi. rewrite length_map, length_seq in Hi.
    transitivity (nth i (map (fun j => nth j bs x00) (seq 0 (List.length bs)))
                    ((fun j => nth j bs x00) 0%nat)).
    { apply nth_indep. now rewrite length_map, length_seq. }
    rewrite (map_nth (fun j => nth j bs x00)), seq_nth by exact Hi. reflexivity.
Qed.

(** C4, as stated, does not hold: 2^248 lies in [0, FIELD_MODULUS), and no
    sequence of random draws makes it the salt. *)
Lemma salt_never_reaches_2_pow_248 :
  (0 <= 2 ^ 248 < FIELD_MODULUS)%Z /\
  ~ (exists rng pos next, draw_salt rng pos = Ok ((2 ^ 248)%Z, next)).
Proof.
  split; [split; [lia|reflexivity]|].
  intros (rng & pos & next & H). rewrite draw_salt_first in H.
  injection H as Hv _.
  pose proof (be_value_range (randomBytes 31 rng pos)) as Hr.
  rewrite randomBytes_length in Hr. rewrite Hv in Hr.
  change (256 ^ Z.of_nat 31)%Z with (2 ^ 248)%Z in Hr. lia.
Qed.

(** C4, amended: the salt is the big-endian value of 31 random bytes.  It
    is therefore below 2^248, which is below FIELD_MODULUS, so the first
    draw is always accepted and the loop never resamples; every integer of
    [0, 2^248) is the salt for some random draw, and for one 31-byte draw
    only, so that uniform bytes give a salt uniform over [0, 2^248); and
    the salt that generateProof returns is the decimal rendering of such
    an integer. *)
Theorem salt_is_31_random_bytes :
  (forall rng pos,
     draw_salt rng pos = Ok (be_value (randomBytes 31 rng pos), (pos + 31)%nat))
  /\
  (forall rng pos v next,
     draw_salt rng pos = Ok (v, next) -> (0 <= v < 2 ^ 248)%Z /\ (v < FIELD_MODULUS)%Z)
  /\
  (forall v, (0 <= v < 2 ^ 248)%Z -> exists rng, draw_salt rng 0 = Ok (v, 31%nat))
  /\
  (forall bs bs', List.length bs = 31%nat -> List.length bs' = 31%nat ->
     be_value bs = be_value bs' -> bs = bs')
  /\
  (forall env priceUSD ts pd,
     generateProof env priceUSD ts = Ok pd ->
     exists v, salt pd = BigInt_toString v /\ (0 <= v < 2 ^ 248)%Z /\ (v < FIELD_MODULUS)%Z).
Proof.
  assert (Hrange : forall rng pos,
            (0 <= be_value (randomBytes 31 rng pos) < 2 ^ 248)%Z).
  { intros rng pos. pose proof (be_value_range (randomBytes 31 rng pos)) as Hr.
    rewrite randomBytes_length in Hr. exact Hr. }
  pose proof pow248_below_modulus as Hmod.
  split; [exact draw_salt_first|]. split; [|split; [|split]].
  - intros rng pos v next H. rewrite draw_salt_first in H. injection H as <- _.
    specialize (Hrange rng pos). lia.
  - intros v Hv. exists (stream_of (encode 31 v)).
    rewrite draw_salt_first. do 2 f_equal.
    rewrite <- (encode_length 31 v) at 1. rewrite randomBytes_stream.
    now apply be_value_encode.
  - intros bs bs' Hl Hl' Hv.
    rewrite <- (encode_be_value bs), <- (encode_be_value bs'). now rewrite Hl, Hl', Hv.
  - intros env priceUSD ts pd H. unfold generateProof in H.
    apply bindR_Ok in H as (_ & _ & H).
    apply bindR_Ok in H as (price & _ & H).
    apply bindR_Ok in H as (sp & Hsp & H).
    apply bindR_Ok in H as ([proof publicSignals] & _ & H).
    apply bindR_Ok in H as (c & _ & H).
    apply bindR_Ok in H as (calldata & _ & H).
    injection H as <-. cbn [salt].
    rewrite draw_salt_first in Hsp. injection Hsp as <-. cbn [fst].
    eexists. split; [reflexivity|]. specialize (Hrange (rng env) 0%nat). lia.
Qed.

End Salt.

(* ================================================================== *)
(** * Reasoning about the events of a computation *)
(* ================================================================== *)

Section Events.
Import JS Sys Reference.

Lemma extends_refl (Q : Event -> Prop) (s : State) : extends Q s s.
Proof. exists []. split; [now rewrite app_nil_r|constructor]. Qed.

Lemma extends_trans (Q : Event -> Prop) (s1 s2 s3 : State) :
  extends Q s1 s2 -> extends Q s2 s3 -> extends Q s1 s3.
Proof.
  intros (t1 & E1 & F1) (t2 & E2 & F2). exists (t1 ++ t2)%list. split.
  - now rewrite E2, E1, app_assoc.
  - apply Forall_app. now split.
Qed.

#[global] Instance quiet_preorder (Q : Event -> Prop) : PreOrder (quiet Q).
Proof.
  split.
  - intros s. split; [apply extends_refl|reflexivity].
  - intros s1 s2 s3 [E1 U1] [E2 U2]. split; [eapply extends_trans; eauto|].
    unfold same_uploads in *. congruence.
Qed.

(** *** Rules for any reflexive and transitive relation *)

Section Keeps.
Context {R : State -> State -> Prop} `{!PreOrder R}.

Lemma keeps_ret {A} (a : A) : keeps R (ret a).
Proof. intros s. reflexivity. Qed.

Lemma keeps_throw {A} (e : Error) : keeps R (@throw A e).
Proof. intros s. reflexivity. Qed.

Lemma keeps_lift {A} (r : Res A) : keeps R (lift r).
Proof. intros s. reflexivity. Qed.

Lemma keeps_bind {A B} (m : M A) (k : A -> M B) :
  keeps R m -> (forall a, keeps R (k a)) -> keeps R (bind m k).
Proof.
  intros Hm Hk s. unfold bind. specialize (Hm s).
  destruct (m s) as [[a|e] s1]; cbn [snd] in *; [|exact Hm].
  etransitivity; [exact Hm|apply Hk].
Qed.

Lemma keeps_try_catch {A} (m : M A) (h : Error -> M A) :
  keeps R m -> (forall e, keeps R (h e)) -> keeps R (try_catch m h).
Proof.
  intros Hm Hh s. unfold try_catch. specialize (Hm s).
  destruct (m s) as [[a|e] s1]; cbn [snd] in *; [exact Hm|].
  etransitivity; [exact Hm|apply Hh].
Qed.

End Keeps.

(** *** Rules for events *)

Lemma emits_emit (Q : Event -> Prop) (e : Event) : Q e -> emits Q (emit e).
Proof.
  intros He s. split; [|reflexivity].
  exists [e]. split; [reflexivity|]. now repeat constructor.
Qed.

Lemma emits_next_call Q (number : Calls -> nat) (count : Calls -> Calls) :
  (forall c, c_upload (count c) = c_upload c) ->
  emits Q (next_call number count).
Proof.
  intros Hc s. split; [|apply Hc].
  exists []. split; [cbn; now rewrite app_nil_r|constructor].
Qed.

End Events.

(* ================================================================== *)
(** * Properties of the archive *)
(* ================================================================== *)

Section Archive.
Import JS Sys Greenfield Reference.
Context `{PF : Platform}.

(** ** Buffers and shards *)

Lemma firstn_zeros (n m : nat) : firstn n (repeat x00 m) = repeat x00 (Nat.min n m).
Proof.
  revert m. induction n as [|n IH]; intros [|m]; cbn; try reflexivity.
  now rewrite IH.
Qed.

Lemma skipn_zeros (n m : nat) : skipn n (repeat x00 m) = repeat x00 (m - n).
Proof.
  revert m. induction n as [|n IH]; intros [|m]; cbn; try reflexivity.
  apply IH.
Qed.

Lemma shardSize_bounds (len : nat) :
  (len <= 4 * shardSize len < len + 4)%nat.
Proof.
  unfold shardSize, EC_DATA. cbn [Nat.sub].
  pose proof (Nat.div_mod_eq (len + 3) 4).
  pose proof (Nat.mod_upper_bound (len + 3) 4 ltac:(lia)). lia.
Qed.

Lemma shards_start_inside (len i : nat) :
  (5 < len)%nat -> (i < 4)%nat -> (i * shardSize len <= len)%nat.
Proof.
  intros Hlen Hi. pose proof (shardSize_bounds len). nia.
Qed.

(** The [i]-th shard is the part of the payload that falls into it,
    followed by zeros. *)
Lemma shard_of_parts (bytes : list byte) (i : nat) :
  let size := shardSize (List.length bytes) in
  let k := (i * size)%nat in
  let nb := Nat.min size (List.length bytes - k) in
  (i < 4)%nat -> (k <= List.length bytes)%nat ->
  shard_of bytes i = (firstn nb (skipn k bytes) ++ repeat x00 (size - nb))%list.
Proof.
  intros size k nb Hi Hk. unfold shard_of, padded. fold size. fold k.
  pose proof (shardSize_bounds (List.length bytes)) as Hs. fold size in Hs.
  rewrite skipn_app, firstn_app, length_skipn.
  replace (k - List.length bytes)%nat with 0%nat by lia. cbn [skipn].
  rewrite firstn_zeros. f_equal.
  - destruct (Nat.le_ge_cases size (List.length bytes - k)) as [H|H].
    + replace nb with size by lia. reflexivity.
    + replace nb with (List.length bytes - k)%nat by lia.
      rewrite !firstn_all2 by (rewrite length_skipn; lia). reflexivity.
  - f_equal. assert (k <= 3 * size)%nat by nia. lia.
Qed.

Lemma copy_shard (bytes : list byte) (i : nat) :
  let size := shardSize (List.length bytes) in
  (i < 4)%nat -> (i * size <= List.length bytes)%nat ->
  Buffer_copy bytes (Buffer_alloc size) 0 (i * size)
    (Nat.min ((i + 1) * size) (List.length bytes))
  = Ok (shard_of bytes i).
Proof.
  intros size Hi Hk. rewrite shard_of_parts by assumption. fold size.
  unfold Buffer_copy, Buffer_alloc. rewrite repeat_length.
  assert (E1 : (List.length bytes <? i * size)%nat = false) by now apply Nat.ltb_ge.
  rewrite E1.
  destruct ((size <=? 0)%nat || (Nat.min ((i + 1) * size) (List.length bytes) <=? i * size)%nat)
    eqn:E2.
  - apply orb_true_iff in E2. rewrite !Nat.leb_le in E2.
    assert (Hnb : Nat.min size (List.length bytes - i * size) = 0%nat) by nia.
    rewrite Hnb. cbn [firstn app]. now rewrite Nat.sub_0_r.
  - apply orb_false_iff in E2. rewrite !Nat.leb_gt in E2.
    cbn [firstn app Nat.add]. rewrite skipn_zeros. do 2 f_equal.
    + f_equal. nia.
    + f_equal. f_equal. nia.
Qed.

Lemma data_shards_ok (bytes : list byte) (n i : nat) :
  (i + n <= 4)%nat ->
  (forall j, (j < 4)%nat -> (j * shardSize (List.length bytes) <= List.length bytes)%nat) ->
  data_shards bytes i n = Ok (map (shard_of bytes) (seq i n)).
Proof.
  intros Hin Hall. revert i Hin. induction n as [|n IH]; intros i Hin; [reflexivity|].
  cbn [data_shards seq map].
  rewrite copy_shard by (try apply Hall; lia). cbn [bindR].
  rewrite IH by lia. reflexivity.
Qed.

Lemma shard_of_length (bytes : list byte) (i : nat) :
  (i < 4)%nat -> List.length (shard_of bytes i) = shardSize (List.length bytes).
Proof.
  intros Hi. unfold shard_of, padded.
  pose proof (shardSize_bounds (List.length bytes)).
  rewrite length_firstn, length_skipn, length_app, repeat_length. nia.
Qed.

Lemma shards_cover (bytes : list byte) :
  (shard_of bytes 0 ++ shard_of bytes 1 ++ shard_of bytes 2 ++ shard_of bytes 3)%list
  = padded bytes.
Proof.
  unfold shard_of. set (size := shardSize (List.length bytes)). set (l := padded bytes).
  assert (Hl : List.length l = (4 * size)%nat).
  { unfold l, padded. fold size. rewrite length_app, repeat_length.
    pose proof (shardSize_bounds (List.length bytes)). fold size in H. lia. }
  replace (0 * size)%nat with 0%nat by lia.
  replace (1 * size)%nat with size by lia.
  replace (2 * size)%nat with (size + size)%nat by lia.
  replace (3 * size)%nat with (size + (size + size))%nat by lia.
  rewrite <- !skipn_skipn. cbn [skipn].
  rewrite <- (firstn_skipn size l) at 5. f_equal.
  rewrite <- (firstn_skipn size (skipn size l)) at 4. f_equal.
  rewrite <- (firstn_skipn size (skipn size (skipn size l))) at 3. f_equal.
  apply firstn_all2. rewrite !length_skipn. lia.
Qed.

(** ** Parity *)

Lemma xor_into_length (a s : list byte) : List.length (xor_into a s) = List.length a.
Proof.
  revert s. induction a as [|x a IH]; intros [|y s]; cbn; try reflexivity.
  now rewrite IH.
Qed.

Lemma xor_into_nth (a s : list byte) (b : nat) :
  (b < List.length a)%nat -> (b < List.length s)%nat ->
  nth b (xor_into a s) x00 = byte_xor (nth b a x00) (nth b s x00).
Proof.
  revert s b. induction a as [|x a IH]; intros [|y s] b Ha Hs; cbn in *; try lia.
  destruct b as [|b]; [reflexivity|]. apply IH; lia.
Qed.

Lemma byte_xor_zero (a : byte) : byte_xor x00 a = a.
Proof. destruct a; reflexivity. Qed.

Lemma nth_zeros (b n : nat) : nth b (repeat x00 n) x00 = x00.
Proof.
  revert b. induction n as [|n IH]; intros [|b]; cbn; try reflexivity. apply IH.
Qed.

Lemma parity_of_four (size : nat) (d0 d1 d2 d3 : list byte) :
  Forall (fun d => List.length d = size) [d0; d1; d2; d3] ->
  let par0 := parity_shard size [d0; d1; d2; d3] 0 in
  List.length par0 = size /\
  (forall b, (b < size)%nat ->
     nth b par0 x00 = xor4 (nth b d0 x00) (nth b d1 x00) (nth b d2 x00) (nth b d3 x00)) /\
  parity_shard size [d0; d1; d2; d3] 1 = xor_first par0 x01.
Proof.
  intros Hall par0.
  rewrite !Forall_cons_iff in Hall. destruct Hall as (H0 & H1 & H2 & H3 & _).
  unfold par0, parity_shard, Buffer_alloc. cbn [Nat.ltb Nat.leb fold_left].
  split; [|split].
  - rewrite !xor_into_length. apply repeat_length.
  - intros b Hb. unfold xor4.
    rewrite !xor_into_nth; rewrite ?xor_into_length, ?repeat_length; try lia.
    now rewrite nth_zeros, byte_xor_zero.
  - reflexivity.
Qed.

Lemma compute_cases (sdk : Sdk) (bytes : list byte) :
  computeExpectChecksums sdk bytes = manualChecksums bytes \/
  exists cs,
    computeExpectChecksums sdk bytes = Ok cs
    /\ List.length cs = 7%nat
    /\ sdk_loads sdk = true
    /\ (NodeAdapterModule sdk bytes = Returning (Some cs)
        \/ getCheckSums sdk bytes = Returning (Some cs)).
Proof.
  assert (Hseven : forall v cs, seven v = Some cs -> v = Some cs /\ List.length cs = 7%nat).
  { intros [l|] cs; cbn; [|discriminate].
    destruct (List.length l =? 7)%nat eqn:E; [|discriminate].
    intros [= <-]. split; [reflexivity|now apply Nat.eqb_eq]. }
  unfold computeExpectChecksums.
  destruct (sdk_loads sdk); cbn [negb]; [|now left].
  destruct (NodeAdapterModule sdk bytes) as [| |v]; try (now left).
  - destruct (getCheckSums sdk bytes) as [| |v]; try (now left).
    destruct (seven v) as [cs|] eqn:E; [|now left].
    apply Hseven in E as [-> E]. right. exists cs. auto.
  - destruct (seven v) as [cs|] eqn:E.
    { apply Hseven in E as [-> E]. right. exists cs. auto. }
    destruct (getCheckSums sdk bytes) as [| |v']; try (now left).
    destruct (seven v') as [cs|] eqn:E'; [|now left].
    apply Hseven in E' as [-> E']. right. exists cs. auto.
Qed.

(** ** The runs of the client *)

Lemma remote_upload_run (R : Remote) (name : string) (bytes : list byte) (s : State) :
  exists t,
    remote_upload R name bytes s
    = (Ok (remote_succeeds R bytes), mkState (trace s ++ t) (files s) (calls s))
    /\ Forall remote_event t.
Proof.
  unfold remote_upload, remote_succeeds, try_catch, bind, emit, lift, ret, throw.
  destruct s as [tr fs cs]. cbn [trace files calls].
  destruct (client_created R); cbn [andb];
    [|exists []; rewrite app_nil_r; split; [reflexivity|constructor]].
  destruct (getStorageProviders R) as [sps|e1];
    [destruct (primary_address sps) as [addr|]|];
    [destruct (computeExpectChecksums (sdk R) bytes) as [sums|e2];
     [destruct (createObject R) as [[]|e3];
      [destruct (broadcastObject R) as [h|e4];
       [destruct (uploadObject R) as [[]|e5]|]|]|]| |];
    cbn [is_ok andb trace files calls]; rewrite <- ?app_assoc; cbn [app];
    eexists; (split; [reflexivity|]); repeat constructor.
Qed.

Lemma ensureBucket_run (R : Remote) (wallet : Wallet) (s : State) :
  exists b t,
    ensureBucket R wallet s = (Ok b, mkState (trace s ++ t) (files s) (calls s))
    /\ Forall remote_event t.
Proof.
  unfold ensureBucket, try_catch, bind, emit, lift, ret, throw.
  destruct s as [tr fs cs]. cbn [trace files calls].
  destruct (client_created R); cbn [negb];
    [|exists false, []; rewrite app_nil_r; split; [reflexivity|constructor]].
  destruct (headBucket R) as [[]|e0];
    [|destruct (getStorageProviders R) as [sps|e1];
      [destruct (primary_address sps) as [addr|];
       [destruct (createBucket R) as [[]|e2];
        [destruct (broadcastBucket R) as [[]|e3]|]|]|]];
    cbn [trace files calls]; rewrite <- ?app_assoc; cbn [app];
    do 2 eexists; (split; [reflexivity|]); repeat constructor.
Qed.

Lemma uploadProof_run (R : Remote) (pd : Prover.ProofData) (txHash : string)
  (wallet : Wallet) (s : State) :
  let name := object_name (Prover.timestamp pd) txHash in
  let text := JSON_stringify (record_of R pd txHash wallet) in
  let path := LOCAL_DIR ++ "/" ++ name in
  match local_write R with
  | Ok _ =>
      exists t,
        uploadProof R pd txHash wallet s
        = (Ok (mkUploaded name (keccak256 (utf8 name)) (remote_succeeds R (utf8 text)) path
                 ("https://testnet.greenfield.bnbchain.org/buckets/" ++ BUCKET ++ "/" ++ name)),
           mkState (trace s ++ EvLocalWrite path text :: t) ((path, text) :: files s) (calls s))
        /\ Forall remote_event t
  | Throw e =>
      uploadProof R pd txHash wallet s
      = (Throw e, mkState (trace s ++ [EvLocalWrite path text]) (files s) (calls s))
  end.
Proof.
  intros name text path. unfold uploadProof. fold name. fold text. fold path.
  unfold bind at 1. cbn [emit]. unfold bind at 1. unfold lift at 1.
  destruct (local_write R) as [[]|e]; [|reflexivity].
  unfold bind at 1. cbn [put_file trace files calls]. unfold bind at 1.
  destruct (remote_upload_run R name (utf8 text)
              (mkState (trace s ++ [EvLocalWrite path text])
                 ((path, text) :: files s) (calls s))) as (t & Hrun & Ht).
  rewrite Hrun. cbn [trace files calls ret]. rewrite <- app_assoc. cbn [app].
  exists t. split; [reflexivity|exact Ht].
Qed.

(** ** Claims on the archive *)

(** C6, amended: for a payload of more than five bytes, the manual
    computation returns exactly seven SHA-256 digests: that of the payload,
    those of the four equal-sized zero-padded data shards, and those of two
    parity shards, the first being the byte-wise XOR of the data shards and
    the second the same with its first byte XORed with 1.
    computeExpectChecksums returns seven checksums in every case: the
    manual ones, or the seven that a helper of the SDK returned. *)
Theorem seven_checksums (sdk : Sdk) (bytes : list byte) :
  (forall m, List.length (sha256 m) = 32%nat) ->
  (5 < List.length bytes)%nat ->
  let size := shardSize (List.length bytes) in
  let d0 := shard_of bytes 0 in
  let d1 := shard_of bytes 1 in
  let d2 := shard_of bytes 2 in
  let d3 := shard_of bytes 3 in
  exists par0 par1,
    manualChecksums bytes
    = Ok [sha256 bytes; sha256 d0; sha256 d1; sha256 d2; sha256 d3;
          sha256 par0; sha256 par1]
    /\ (d0 ++ d1 ++ d2 ++ d3 = bytes ++ repeat x00 (4 * size - List.length bytes))%list
    /\ Forall (fun d => List.length d = size) [d0; d1; d2; d3; par0; par1]
    /\ (forall b, (b < size)%nat ->
          nth b par0 x00
          = xor4 (nth b d0 x00) (nth b d1 x00) (nth b d2 x00) (nth b d3 x00))
    /\ par1 = xor_first par0 x01
    /\ Forall (fun c => List.length c = 32%nat)
          [sha256 bytes; sha256 d0; sha256 d1; sha256 d2; sha256 d3;
           sha256 par0; sha256 par1]
    /\ (exists cs, computeExpectChecksums sdk bytes = Ok cs /\ List.length cs = 7%nat)
    /\ (computeExpectChecksums sdk bytes = manualChecksums bytes
        \/ exists cs,
             computeExpectChecksums sdk bytes = Ok cs
             /\ sdk_loads sdk = true
             /\ (NodeAdapterModule sdk bytes = Returning (Some cs)
                 \/ getCheckSums sdk bytes = Returning (Some cs)))
    /\ (sdk_loads sdk = false -> computeExpectChecksums sdk bytes = manualChecksums bytes).
Proof.
  intros Hsha Hlen size d0 d1 d2 d3.
  assert (Hdata : Forall (fun d => List.length d = size) [d0; d1; d2; d3]).
  { repeat constructor; apply shard_of_length; lia. }
  destruct (parity_of_four size d0 d1 d2 d3 Hdata) as (Hpl & Hxor & Hp1).
  set (par0 := parity_shard size [d0; d1; d2; d3] 0) in *.
  assert (Hmanual : manualChecksums bytes
            = Ok [sha256 bytes; sha256 d0; sha256 d1; sha256 d2; sha256 d3;
                  sha256 par0; sha256 (xor_first par0 x01)]).
  { unfold manualChecksums, EC_DATA.
    rewrite data_shards_ok by (try lia; intros j Hj; now apply shards_start_inside).
    cbn [bindR seq map app EC_PARITY]. fold size d0 d1 d2 d3. fold par0.
    now rewrite Hp1. }
  exists par0, (xor_first par0 x01).
  split; [exact Hmanual|]. split; [apply shards_cover|]. split.
  { rewrite !Forall_cons_iff in *. destruct Hdata as (H0 & H1 & H2 & H3 & _).
    repeat split; try assumption; try constructor.
    destruct par0; cbn in *; assumption. }
  split; [exact Hxor|]. split; [reflexivity|]. split.
  { repeat constructor; apply Hsha. }
  split; [|split].
  - destruct (compute_cases sdk bytes) as [E|(cs & E & Hl & _)]; [|eauto].
    rewrite E, Hmanual. eauto.
  - destruct (compute_cases sdk bytes) as [E|(cs & E & _ & Hs & Hr)]; [now left|].
    right. exists cs. auto.
  - intros Hno. unfold computeExpectChecksums. now rewrite Hno.
Qed.



End Archive.


(** C6, as stated, does not hold.  With a helper of the SDK that returns
    seven checksums, these are returned as they are, here seven one-byte
    values, none of them a 32-byte digest; and for a payload of five bytes
    without the SDK nothing is returned: the fourth shard would start at
    offset 6, beyond the payload, and Buffer.copy refuses that. *)
Lemma checksums_are_not_always_the_manual_ones :
  let helper :=
    Greenfield.mkSdk true (fun _ => Greenfield.Returning (Some (repeat [x2a] 7)))
      (fun _ => Greenfield.Absent) in
  let none := Greenfield.mkSdk false (fun _ => Greenfield.Absent) (fun _ => Greenfield.Absent) in
  Greenfield.computeExpectChecksums (PF := Demo.platform) helper (repeat x01 7)
  = JS.Ok (repeat [x2a] 7)
  /\ Forall (fun c => List.length c = 1%nat) (repeat [x2a] 7)
  /\ (exists e,
        Greenfield.computeExpectChecksums (PF := Demo.platform) none (repeat x01 5)
        = JS.Throw e).
Proof.
  split; [reflexivity|]. split; [repeat constructor|]. eexists. reflexivity.
Qed.

Lemma seven_checksums_witness :
  (forall m, List.length (Demo.checksum32 m) = 32%nat) /\
  (5 < List.length (repeat x01 7))%nat /\
  exists cs,
    Greenfield.computeExpectChecksums (PF := Demo.platform)
      (Greenfield.sdk Demo.refusing) (repeat x01 7) = JS.Ok cs /\
    List.length cs = 7%nat.
Proof.
  assert (H32 : forall m, List.length (Demo.checksum32 m) = 32%nat)
    by (intros m; reflexivity).
  assert (H5 : (5 < List.length (repeat x01 7))%nat) by (cbn; lia).
  split; [exact H32|]. split; [exact H5|].
  destruct (seven_checksums (PF := Demo.platform) (Greenfield.sdk Demo.refusing)
              (repeat x01 7) H32 H5) as (par0 & par1 & _ & _ & _ & _ & _ & _ & H & _ & _).
  exact H.
Defined.

(* ================================================================== *)
(** * Properties of a submission cycle *)
(* ================================================================== *)

Section Cycle.
Import JS Sys Agent Reference.
Context `{PF : Greenfield.Platform}.

Ltac emits_rules :=
  repeat first
    [ apply keeps_ret | apply keeps_throw | apply keeps_lift
    | apply emits_next_call; reflexivity
    | apply emits_emit; cbn; tauto
    | apply keeps_bind; [|intros ?]
    | apply keeps_try_catch; [|intros ?] ].

(** ** Retry *)

Lemma emits_retry_loop {A} (Q : Event -> Prop) (fn : M A) (attempts i todo : nat) :
  (forall ms, Q (EvSleep ms)) -> emits Q fn -> emits Q (retry_loop fn attempts i todo).
Proof.
  intros Hsleep Hfn. revert i. induction todo as [|todo IH]; intros i; cbn [retry_loop].
  - apply keeps_ret.
  - apply keeps_try_catch.
    + apply keeps_bind; [exact Hfn|intros a; apply keeps_ret].
    + intros e. destruct (i =? attempts)%nat; [apply keeps_throw|].
      apply keeps_bind; [apply emits_emit, Hsleep|intros _; apply IH].
Qed.

Lemma emits_retried {A} (Q : Event -> Prop) (fn : M A) (attempts : nat) :
  (forall ms, Q (EvSleep ms)) -> emits Q fn -> emits Q (bind (retry fn attempts) defined).
Proof.
  intros Hsleep Hfn. apply keeps_bind; [now apply emits_retry_loop|].
  intros [a|]; [apply keeps_ret|apply keeps_throw].
Qed.

(** A retry that returns a value returns the value of a run of [fn], in
    the state which that run left. *)
Lemma retry_loop_ok {A} (fn : M A) (attempts i todo : nat) (s s' : State) (v : option A) :
  retry_loop fn attempts i todo s = (Ok v, s') ->
  match v with
  | Some a => exists s0, fn s0 = (Ok a, s')
  | None => True
  end.
Proof.
  revert i s. induction todo as [|todo IH]; intros i s; cbn [retry_loop].
  - unfold ret. intros [= <- <-]. exact I.
  - unfold try_catch, bind. destruct (fn s) as [[a|e] s1] eqn:E.
    + unfold ret. intros [= <- <-]. eauto.
    + destruct (i =? attempts)%nat; [unfold throw; discriminate|].
      cbn [emit]. apply IH.
Qed.

(** ** Steps 1 to 3 *)

Lemma emits_probe (alive : string -> bool) (rpcs : list string) :
  emits early_event (probe alive rpcs).
Proof.
  induction rpcs as [|rpc rest IH]; cbn [probe]; [apply keeps_throw|].
  apply keeps_bind; [apply emits_emit; exact I|intros _].
  destruct (alive rpc); [apply keeps_ret|exact IH].
Qed.

Lemma emits_acquire (w : World) (overridePrice : option string) :
  emits early_event (acquire w overridePrice).
Proof.
  unfold acquire.
  apply keeps_bind; [apply emits_retried; [intros ms; exact I|]|intros provider].
  { unfold getProvider. apply keeps_bind; [apply emits_next_call; reflexivity|intros n].
    apply emits_probe. }
  apply keeps_bind; [apply emits_retried; [intros ms; exact I|]|intros priceResult].
  { unfold fetch_step. emits_rules. }
  apply keeps_bind; [apply emits_retried; [intros ms; exact I|]|intros generated].
  { unfold prove_step. emits_rules. }
  apply keeps_ret.
Qed.

(** ** Step 4 *)

Lemma verify_gate_run (w : World) (pd : Prover.ProofData) (s : State) :
  let r := Prover.verifyProof (verifier w) (Prover.proof pd) (Prover.publicSignals pd) in
  verify_gate w pd s
  = (match r with
     | Ok true => Ok tt
     | Ok false => Throw LOCAL_FAILED
     | Throw e => Throw e
     end,
     mkState (trace s ++ [EvVerify (Prover.proof pd) (Prover.publicSignals pd) r])
       (files s) (calls s)).
Proof.
  intros r. unfold verify_gate, verify_step, bind, emit, lift. fold r.
  destruct r as [[|]|e]; reflexivity.
Qed.

(** ** Steps 6 and 8 *)

Lemma remote_is_archive (t : list Event) : Forall remote_event t -> Forall archive_event t.
Proof.
  apply Forall_impl. intros [] H; cbn in *; tauto.
Qed.

Lemma pre_archive_run (w : World) (pd : Prover.ProofData) (s : State) :
  exists on s',
    pre_archive w pd s = (Ok (archive_ref w pd s, on), s')
    /\ extends archive_event s s'.
Proof.
  unfold pre_archive, try_catch, bind at 1.
  destruct (ensureBucket_run (bucket w) (wallet w) s) as (b & t & Hb & Ht).
  rewrite Hb. unfold upload_step, bind at 1, next_call. cbn [calls trace files].
  unfold bind at 1. cbn [calls trace files].
  pose proof (uploadProof_run (store w (c_upload (calls s))) pd
                ("pending-" ++ Prover.timestamp pd) (wallet w)
                (mkState (trace s ++ t) (files s) (count_upload (calls s)))) as Hup.
  cbv zeta in Hup. unfold archive_ref.
  destruct (Greenfield.local_write (store w (c_upload (calls s)))) as [[]|e].
  - destruct Hup as (t' & Hup & Ht'). rewrite Hup. cbn [ret Greenfield.greenfieldRef
      Greenfield.onGreenfield trace].
    do 2 eexists. split; [reflexivity|].
    eexists. cbn [trace]. rewrite <- app_assoc. split; [reflexivity|].
    apply Forall_app. split; [now apply remote_is_archive|].
    constructor; [exact I|now apply remote_is_archive].
  - rewrite Hup. cbn [ret]. do 2 eexists. split; [reflexivity|].
    eexists. cbn [trace]. rewrite <- app_assoc. split; [reflexivity|].
    apply Forall_app. split; [now apply remote_is_archive|].
    repeat constructor.
Qed.

Lemma post_archive_run (w : World) (pd : Prover.ProofData) (tx : TxResponse) (s : State) :
  exists s' text t,
    post_archive w pd tx s = (Ok tt, s')
    /\ trace s'
       = (trace s
          ++ EvLocalWrite (Greenfield.LOCAL_DIR ++ "/" ++ post_name (Prover.timestamp pd) tx)
               text :: t)%list
    /\ Forall archive_event t.
Proof.
  unfold post_archive, try_catch, bind at 1, upload_step, bind at 1, next_call.
  cbn [calls trace files].
  pose proof (uploadProof_run (store w (c_upload (calls s))) pd (tx_hash tx)
                (wallet w) (mkState (trace s) (files s) (count_upload (calls s)))) as Hup.
  cbv zeta in Hup.
  destruct (Greenfield.local_write (store w (c_upload (calls s)))) as [[]|e].
  - destruct Hup as (t' & Hup & Ht'). rewrite Hup. cbn [ret trace].
    do 3 eexists. split; [reflexivity|]. split; [reflexivity|].
    now apply remote_is_archive.
  - rewrite Hup. cbn [ret trace]. do 3 eexists. split; [reflexivity|].
    split; [reflexivity|constructor].
Qed.

(** ** Step 7 *)

Lemma send_step_run (w : World) (pd : Prover.ProofData) (pa : list Z)
  (pb : list (list Z)) (pc : list Z) (ref : string) (s : State) (p t : Z) :
  BigInt_of_string (Prover.price pd) = Ok p ->
  BigInt_of_string (Prover.timestamp pd) = Ok t ->
  let args := mkArgs p t (Prover.commitment pd) pa pb pc ref in
  send_step w pd pa pb pc ref s
  = (submitPriceWithProof w (c_send (calls s)) args,
     mkState (trace s ++ [EvSubmit args]) (files s) (count_send (calls s))).
Proof.
  intros Hp Ht args. unfold send_step, bind, lift, next_call, emit.
  rewrite Hp, Ht. fold args. cbn [trace files calls].
  destruct (submitPriceWithProof w (c_send (calls s)) args); reflexivity.
Qed.

Lemma send_step_cases (w : World) (pd : Prover.ProofData) (pa : list Z)
  (pb : list (list Z)) (pc : list Z) (ref : string) (s : State) :
  (exists e, send_step w pd pa pb pc ref s = (Throw e, s))
  \/ exists a,
       submit_of pd pa pb pc ref (EvSubmit a)
       /\ send_step w pd pa pb pc ref s
          = (submitPriceWithProof w (c_send (calls s)) a,
             mkState (trace s ++ [EvSubmit a]) (files s) (count_send (calls s))).
Proof.
  destruct (BigInt_of_string (Prover.price pd)) as [p|e] eqn:Hp.
  - destruct (BigInt_of_string (Prover.timestamp pd)) as [t|e] eqn:Ht.
    + right. exists (mkArgs p t (Prover.commitment pd) pa pb pc ref).
      split; [cbn; now rewrite Hp, Ht|].
      exact (send_step_run w pd pa pb pc ref s p t Hp Ht).
    + left. exists e. unfold send_step, bind, lift. now rewrite Hp, Ht.
  - left. exists e. unfold send_step, bind, lift. now rewrite Hp.
Qed.

Lemma emits_send_step (w : World) (pd : Prover.ProofData) (pa : list Z)
  (pb : list (list Z)) (pc : list Z) (ref : string) :
  emits (submit_of pd pa pb pc ref) (send_step w pd pa pb pc ref).
Proof.
  intros s. destruct (send_step_cases w pd pa pb pc ref s) as [[e H]|(a & Ha & H)];
    rewrite H; cbn [snd]; [reflexivity|].
  split; [|reflexivity]. exists [EvSubmit a]. split; [reflexivity|].
  constructor; [exact Ha|constructor].
Qed.

Lemma send_step_ok (w : World) (pd : Prover.ProofData) (pa : list Z)
  (pb : list (list Z)) (pc : list Z) (ref : string) (s s' : State) (tx : TxResponse) :
  send_step w pd pa pb pc ref s = (Ok tx, s') ->
  exists a, In (EvSubmit a) (trace s').
Proof.
  destruct (send_step_cases w pd pa pb pc ref s) as [[e H]|(a & Ha & H)];
    rewrite H; [discriminate|].
  intros [= _ <-]. exists a. cbn [trace]. apply in_or_app. right. now left.
Qed.

Lemma submit_phase_ok (w : World) (pd : Prover.ProofData) (pa : list Z)
  (pb : list (list Z)) (pc : list Z) (ref : string) (s s' : State) (tx : TxResponse) :
  submit_phase w pd pa pb pc ref s = (Ok tx, s') ->
  exists a, In (EvSubmit a) (trace s').
Proof.
  unfold submit_phase, bind, retry.
  destruct (retry_loop _ 3 1 3 s) as [[[tx'|]|e] s1] eqn:E; cbn [defined ret throw];
    try discriminate.
  intros [= <- <-]. apply retry_loop_ok in E. destruct E as (s0 & E).
  eapply send_step_ok, E.
Qed.

Lemma emits_submit_phase (w : World) (pd : Prover.ProofData) (pa : list Z)
  (pb : list (list Z)) (pc : list Z) (ref : string) :
  emits (submit_of pd pa pb pc ref) (submit_phase w pd pa pb pc ref).
Proof.
  unfold submit_phase. apply emits_retried; [intros ms; exact I|].
  apply emits_send_step.
Qed.

(** ** Steps 5 to 8 *)

Lemma publish_run (w : World) (agg : PriceFetcher.Aggregated) (pd : Prover.ProofData)
  (s : State) (pa : list Z) (pb : list (list Z)) (pc : list Z) :
  parse_proof (Prover.proof pd) = Ok (pa, pb, pc) ->
  exists result s' t,
    publish w agg pd s = (result, s')
    /\ trace s' = (trace s ++ t)%list
    /\ Forall (publish_event pd pa pb pc (archive_ref w pd s)) t
    /\ (forall sub, result = Ok sub ->
          r_greenfieldRef sub = archive_ref w pd s
          /\ exists tx text a,
               r_txHash sub = tx_hash tx
               /\ In (EvSubmit a) (trace s')
               /\ In (EvLocalWrite
                        (Greenfield.LOCAL_DIR ++ "/" ++ post_name (Prover.timestamp pd) tx)
                        text) (trace s')).
Proof.
  intros Hparse. set (ref := archive_ref w pd s).
  assert (Harch : forall t, Forall archive_event t -> Forall (publish_event pd pa pb pc ref) t).
  { apply Forall_impl. intros e He. now left. }
  assert (Hsub : forall t, Forall (submit_of pd pa pb pc ref) t
                           -> Forall (publish_event pd pa pb pc ref) t).
  { apply Forall_impl. intros e He. right. now left. }
  unfold publish. unfold bind at 1, lift at 1. rewrite Hparse.
  destruct (pre_archive_run w pd s) as (on & s1 & Hpre & (t1 & Ht1 & Hq1)).
  unfold bind at 1. rewrite Hpre. cbn [fst snd]. fold ref.
  destruct (emits_submit_phase w pd pa pb pc ref s1) as [(t2 & Ht2 & Hq2) _].
  unfold bind at 1.
  destruct (submit_phase w pd pa pb pc ref s1) as [[tx|e] s2] eqn:Esub; cbn [snd] in Ht2.
  2:{ do 3 eexists. split; [reflexivity|]. split; [rewrite Ht2, Ht1, <- app_assoc; reflexivity|].
      split; [apply Forall_app; auto|]. intros sub [=]. }
  unfold bind at 1. cbn [emit]. unfold bind at 1, lift at 1.
  destruct (wait tx) as [receipt|e].
  2:{ do 3 eexists. split; [reflexivity|]. cbn [trace].
      split; [rewrite Ht2, Ht1, <- !app_assoc; reflexivity|].
      split; [|intros sub [=]].
      apply Forall_app; split; [auto|]. apply Forall_app; split; [auto|].
      constructor; [|constructor]. right; right; eauto. }
  unfold bind at 1.
  destruct (post_archive_run w pd tx
              (mkState (trace s2 ++ [EvWait (tx_hash tx)]) (files s2) (calls s2)))
    as (s3 & text & t3 & Hpost & Ht3 & Hq3).
  rewrite Hpost. cbn [trace] in Ht3.
  assert (Htrace : trace s3
            = (trace s ++ t1 ++ t2 ++ EvWait (tx_hash tx)
                 :: EvLocalWrite
                      (Greenfield.LOCAL_DIR ++ "/" ++ post_name (Prover.timestamp pd) tx) text
                 :: t3)%list).
  { rewrite Ht3, Ht2, Ht1, <- !app_assoc. reflexivity. }
  assert (Hall : Forall (publish_event pd pa pb pc ref)
            (t1 ++ t2 ++ EvWait (tx_hash tx)
               :: EvLocalWrite
                    (Greenfield.LOCAL_DIR ++ "/" ++ post_name (Prover.timestamp pd) tx) text
               :: t3)%list).
  { apply Forall_app; split; [auto|]. apply Forall_app; split; [auto|].
    constructor; [right; right; eauto|]. constructor; [left; exact I|auto]. }
  unfold bind at 1, lift at 1.
  destruct (write_submission w) as [[]|e].
  2:{ do 3 eexists. split; [reflexivity|]. split; [exact Htrace|].
      split; [exact Hall|intros sub [=]]. }
  do 3 eexists. split; [reflexivity|]. split; [exact Htrace|]. split; [exact Hall|].
  intros sub [= <-]. cbn [r_greenfieldRef r_txHash]. split; [reflexivity|].
  destruct (submit_phase_ok _ _ _ _ _ _ _ _ _ Esub) as (a & Ha).
  exists tx, text, a. split; [reflexivity|]. split.
  - rewrite Ht3. cbn [trace]. apply in_or_app. left. apply in_or_app. now left.
  - rewrite Ht3. apply in_or_app. right. now left.
Qed.

(** ** The shape of a cycle *)

Lemma acquire_run (w : World) (overridePrice : option string) :
  exists tA,
    trace (snd (acquire w overridePrice init)) = tA
    /\ Forall early_event tA
    /\ c_upload (calls (snd (acquire w overridePrice init))) = 0%nat.
Proof.
  destruct (emits_acquire w overridePrice init) as [(tA & Ht & Hq) Hu].
  exists tA. cbn [init trace app] in Ht. auto.
Qed.

(** A cycle stops before the local verification, stops at a local
    verification that does not pass, or goes on to publish. *)
Lemma submitOnce_shape (w : World) (overridePrice : option string) :
  exists tA, Forall early_event tA /\
    ((trace (snd (submitOnce w overridePrice init)) = tA
      /\ exists e, fst (submitOnce w overridePrice init) = Throw e)
     \/
     exists agg pd files1 calls1,
       c_upload calls1 = 0%nat /\
       let r := Prover.verifyProof (verifier w) (Prover.proof pd) (Prover.publicSignals pd) in
       let s2 := mkState (tA ++ [EvVerify (Prover.proof pd) (Prover.publicSignals pd) r])
                   files1 calls1 in
       match r with
       | Ok true => submitOnce w overridePrice init = publish w agg pd s2
       | Ok false => submitOnce w overridePrice init = (Throw LOCAL_FAILED, s2)
       | Throw e => submitOnce w overridePrice init = (Throw e, s2)
       end).
Proof.
  destruct (acquire_run w overridePrice) as (tA & Ht & Hq & Hu).
  exists tA. split; [exact Hq|].
  unfold submitOnce, bind.
  destruct (acquire w overridePrice init) as [[[agg pd]|e] s1]; cbn [snd fst] in *.
  2:{ left. eauto. }
  right. exists agg, pd, (files s1), (calls s1). split; [exact Hu|].
  rewrite verify_gate_run. rewrite Ht.
  destruct (Prover.verifyProof _ _ _) as [[|]|e]; reflexivity.
Qed.

Lemma publish_extends (w : World) (agg : PriceFetcher.Aggregated) (pd : Prover.ProofData)
  (s : State) :
  exists t,
    trace (snd (publish w agg pd s)) = (trace s ++ t)%list
    /\ (forall a, In (EvSubmit a) t ->
          exists pa pb pc,
            parse_proof (Prover.proof pd) = Ok (pa, pb, pc)
            /\ submit_of pd pa pb pc (archive_ref w pd s) (EvSubmit a))
    /\ (forall pf sg r, ~ In (EvVerify pf sg r) t).
Proof.
  destruct (parse_proof (Prover.proof pd)) as [[[pa pb] pc]|e] eqn:Hparse.
  - destruct (publish_run w agg pd s pa pb pc Hparse) as (result & s' & t & Hrun & Ht & Hq & _).
    rewrite Hrun. exists t. split; [exact Ht|].
    rewrite Forall_forall in Hq. split.
    + intros a Ha. exists pa, pb, pc. split; [reflexivity|].
      destruct (Hq _ Ha) as [H|[H|[h H]]]; [destruct H|exact H|discriminate].
    + intros pf sg r Hv.
      destruct (Hq _ Hv) as [H|[H|[h H]]]; [destruct H|destruct H|discriminate].
  - exists []. split; [|split; [intros a []|intros pf sg r []]].
    unfold publish, bind, lift. rewrite Hparse. cbn [snd]. now rewrite app_nil_r.
Qed.

Lemma early_not_submit (t : list Event) (a : SubmitArgs) :
  Forall early_event t -> ~ In (EvSubmit a) t.
Proof.
  intros Hq Hin. rewrite Forall_forall in Hq. exact (Hq _ Hin).
Qed.


(** ** Claims on the cycle *)


(** ** Object names *)

Lemma append_inj_l (s a b : string) : s ++ a = s ++ b -> a = b.
Proof. induction s as [|c s IH]; cbn; [auto|]. intros [= H]. auto. Qed.

Lemma append_self (s r : string) : s ++ r = s -> r = "".
Proof. induction s as [|c s IH]; cbn; [auto|]. intros [= H]. auto. Qed.

Lemma utf8_inj (x y : string) : Greenfield.utf8 x = Greenfield.utf8 y -> x = y.
Proof.
  unfold Greenfield.utf8. intros H.
  rewrite <- (string_of_list_byte_of_string x), <- (string_of_list_byte_of_string y).
  now rewrite H.
Qed.

Lemma post_name_not_pre_name (ts : string) (tx : TxResponse) :
  post_name ts tx <> pre_name ts.
Proof.
  unfold post_name, pre_name, Greenfield.object_name. intros H.
  apply append_inj_l, append_inj_l, append_inj_l in H.
  unfold tx_hash, Greenfield.slice0 in H. cbn in H. discriminate.
Qed.

Lemma post_name_not_fallback (ts : string) (tx : TxResponse) :
  post_name ts tx <> fallback_preimage ts.
Proof.
  unfold post_name, fallback_preimage, Greenfield.object_name. intros H.
  apply append_inj_l, append_self in H. discriminate.
Qed.

(** C10: in a successful cycle every submission carries the reference that
    the cycle records in its result; that reference is the Keccak-256 hash
    of the pre-submission object name, or, when the pre-submission archive
    call throws (its local write fails), of "veris-proof-" followed by the
    timestamp.  The post-submission archive writes under the name built
    from the transaction hash, which differs from both preimages, so that
    a submitted reference equal to the hash of that name would exhibit a
    collision of Keccak-256. *)
Theorem onchain_reference_is_the_presubmission_one
  (w : World) (overridePrice : option string) (sub : Submission) (st : State) :
  submitOnce w overridePrice init = (Ok sub, st) ->
  exists ts tx,
    r_txHash sub = tx_hash tx
    /\ (exists a, In (EvSubmit a) (trace st))
    /\ (forall a, In (EvSubmit a) (trace st) ->
          s_greenfieldRef a = r_greenfieldRef sub
          /\ BigInt_of_string ts = Ok (s_timestamp a))
    /\ (forall u, Greenfield.local_write (store w 0) = Ok u ->
          r_greenfieldRef sub = Greenfield.keccak256 (Greenfield.utf8 (pre_name ts)))
    /\ (forall e, Greenfield.local_write (store w 0) = Throw e ->
          r_greenfieldRef sub
          = Greenfield.keccak256 (Greenfield.utf8 (fallback_preimage ts)))
    /\ (exists text,
          In (EvLocalWrite (Greenfield.LOCAL_DIR ++ "/" ++ post_name ts tx) text) (trace st))
    /\ post_name ts tx <> pre_name ts
    /\ post_name ts tx <> fallback_preimage ts
    /\ (r_greenfieldRef sub = Greenfield.keccak256 (Greenfield.utf8 (post_name ts tx)) ->
        exists x y, x <> y /\ Greenfield.keccak256 x = Greenfield.keccak256 y).
Proof.
  intros Hrun.
  destruct (submitOnce_shape w overridePrice) as (tA & Hq & [[Ht [e He]]|H]).
  { rewrite Hrun in He. discriminate. }
  destruct H as (agg & pd & files1 & calls1 & Hu & H). cbv zeta in H.
  destruct (Prover.verifyProof _ _ _) as [[|]|e];
    [|rewrite Hrun in H; discriminate|rewrite Hrun in H; discriminate].
  rewrite Hrun in H. symmetry in H.
  set (s2 := mkState (tA ++ [EvVerify (Prover.proof pd) (Prover.publicSignals pd) (Ok true)])
               files1 calls1) in *.
  destruct (parse_proof (Prover.proof pd)) as [[[pa pb] pc]|e] eqn:Hparse.
  2:{ unfold publish, bind, lift in H. rewrite Hparse in H. discriminate. }
  destruct (publish_run w agg pd s2 pa pb pc Hparse)
    as (result & s' & t & Hpub & Ht & Hall & Hok).
  rewrite H in Hpub. injection Hpub as <- <-.
  destruct (Hok sub eq_refl) as (Href & tx & text & a & Htx & Ha & Hpost).
  assert (Hcase : archive_ref w pd s2
                  = match Greenfield.local_write (store w 0) with
                    | Ok _ => Greenfield.keccak256
                                (Greenfield.utf8 (pre_name (Prover.timestamp pd)))
                    | Throw _ => Greenfield.keccak256
                                   (Greenfield.utf8 (fallback_preimage (Prover.timestamp pd)))
                    end).
  { unfold archive_ref, s2. cbn [calls]. now rewrite Hu. }
  exists (Prover.timestamp pd), tx.
  split; [exact Htx|]. split; [eauto|]. split.
  { intros a' Ha'. rewrite Ht in Ha'. apply in_app_or in Ha'. destruct Ha' as [Ha'|Ha'].
    - unfold s2 in Ha'. cbn [trace] in Ha'. apply in_app_or in Ha'.
      destruct Ha' as [Ha'|[Ha'|[]]]; [now apply early_not_submit in Ha'|discriminate].
    - rewrite Forall_forall in Hall.
      destruct (Hall _ Ha') as [[]|[Hs|[h Hs]]]; [|discriminate].
      cbn in Hs. destruct Hs as (_ & Hts & _ & _ & _ & _ & Hr).
      split; [now rewrite Hr, Href|exact Hts]. }
  split; [intros u Hw; rewrite Href, Hcase, Hw; reflexivity|].
  split; [intros e Hw; rewrite Href, Hcase, Hw; reflexivity|].
  split; [eauto|].
  split; [apply post_name_not_pre_name|]. split; [apply post_name_not_fallback|].
  intros Heq. rewrite Href, Hcase in Heq.
  destruct (Greenfield.local_write (store w 0)); do 2 eexists; (split; [|exact Heq]);
    intros Hx; apply utf8_inj in Hx; symmetry in Hx.
  - now apply post_name_not_pre_name in Hx.
  - now apply post_name_not_fallback in Hx.
Qed.

(** C5, amended: the retry around the submit call makes up to three
    attempts, pausing 2000 ms and then 4000 ms, and goes on to the next
    attempt on any error of the call, whatever its kind: a revert raised by
    the call is retried like a transport error, and only the error of the
    third attempt is surfaced. *)
Theorem every_submit_error_is_retried (w : World) (pd : Prover.ProofData)
  (pa : list Z) (pb : list (list Z)) (pc : list Z) (ref : string) (s : State) (p t : Z) :
  BigInt_of_string (Prover.price pd) = Ok p ->
  BigInt_of_string (Prover.timestamp pd) = Ok t ->
  let args := mkArgs p t (Prover.commitment pd) pa pb pc ref in
  let n := c_send (calls s) in
  let after k evs := mkState (trace s ++ evs) (files s) (Nat.iter k count_send (calls s)) in
  let sub := EvSubmit args in
  submit_phase w pd pa pb pc ref s
  = match submitPriceWithProof w n args with
    | Ok tx => (Ok tx, after 1%nat [sub])
    | Throw _ =>
        match submitPriceWithProof w (S n) args with
        | Ok tx => (Ok tx, after 2%nat [sub; EvSleep 2000; sub])
        | Throw _ =>
            match submitPriceWithProof w (S (S n)) args with
            | Ok tx => (Ok tx, after 3%nat [sub; EvSleep 2000; sub; EvSleep 4000; sub])
            | Throw e => (Throw e, after 3%nat [sub; EvSleep 2000; sub; EvSleep 4000; sub])
            end
        end
    end.
Proof.
  intros Hp Ht args n after sub.
  pose proof (fun s0 => send_step_run w pd pa pb pc ref s0 p t Hp Ht) as Hrun.
  cbv zeta in Hrun. fold args in Hrun. fold sub in Hrun.
  unfold submit_phase, retry. cbn [retry_loop Nat.eqb].
  unfold try_catch, bind. rewrite Hrun. fold n.
  destruct (submitPriceWithProof w n args) as [tx|e0]; [reflexivity|].
  cbn [emit]. rewrite Hrun. cbn [calls count_send c_send]. fold n.
  destruct (submitPriceWithProof w (S n) args) as [tx|e1].
  { cbn [ret defined trace files calls]. unfold after. cbn [Nat.iter].
    rewrite <- !app_assoc. reflexivity. }
  cbn [emit]. rewrite Hrun. cbn [calls count_send c_send trace files]. fold n.
  destruct (submitPriceWithProof w (S (S n)) args) as [tx|e2];
    cbn [ret defined throw trace files calls]; unfold after; cbn [Nat.iter];
    rewrite <- !app_assoc; reflexivity.
Qed.

(** C8: whenever a submission is made, its second proof argument holds the
    rows of the locally verified proof's [pi_b] with the two coordinates of
    each row exchanged, and its first and third arguments hold the first two
    coordinates of [pi_a] and [pi_c] in their order. *)
Theorem proof_b_rows_are_swapped (w : World) (overridePrice : option string)
  (a : SubmitArgs) :
  let run := submitOnce w overridePrice init in
  In (EvSubmit a) (trace (snd run)) ->
  exists pf sg,
    In (EvVerify pf sg (Ok true)) (trace (snd run))
    /\ exists a0 a1 b00 b01 b10 b11 c0 c1,
         BigInt_at (Prover.pi_a pf) 0 = Ok a0
         /\ BigInt_at (Prover.pi_a pf) 1 = Ok a1
         /\ BigInt_at2 (Prover.pi_b pf) 0 0 = Ok b00
         /\ BigInt_at2 (Prover.pi_b pf) 0 1 = Ok b01
         /\ BigInt_at2 (Prover.pi_b pf) 1 0 = Ok b10
         /\ BigInt_at2 (Prover.pi_b pf) 1 1 = Ok b11
         /\ BigInt_at (Prover.pi_c pf) 0 = Ok c0
         /\ BigInt_at (Prover.pi_c pf) 1 = Ok c1
         /\ s_proof_a a = [a0; a1]
         /\ s_proof_b a = [[b01; b00]; [b11; b10]]
         /\ s_proof_c a = [c0; c1].
Proof.
  intros run. unfold run. intros Ha.
  destruct (submitOnce_shape w overridePrice) as (tA & Hq & [[Ht He]|H]).
  { rewrite Ht in Ha. now apply early_not_submit in Ha. }
  destruct H as (agg & pd & files1 & calls1 & _ & H). cbv zeta in H.
  destruct (Prover.verifyProof _ _ _) as [[|]|e].
  2,3: rewrite H in Ha; cbn [snd trace] in Ha; apply in_app_or in Ha;
       destruct Ha as [Ha|[Ha|[]]]; [now apply early_not_submit in Ha|discriminate].
  rewrite H in Ha |- *.
  destruct (publish_extends w agg pd
              (mkState (tA ++ [EvVerify (Prover.proof pd) (Prover.publicSignals pd) (Ok true)])
                 files1 calls1)) as (t & Ht & Hs & _).
  rewrite Ht in Ha |- *. cbn [trace] in Ha |- *.
  exists (Prover.proof pd), (Prover.publicSignals pd). split.
  { apply in_or_app. left. apply in_or_app. right. now left. }
  apply in_app_or in Ha. destruct Ha as [Ha|Ha].
  { apply in_app_or in Ha. destruct Ha as [Ha|[Ha|[]]];
      [now apply early_not_submit in Ha|discriminate]. }
  destruct (Hs a Ha) as (pa & pb & pc & Hparse & Hsub).
  cbn in Hsub. destruct Hsub as (_ & _ & _ & Hpa & Hpb & Hpc & _).
  unfold parse_proof in Hparse.
  apply bindR_Ok in Hparse as (a0 & Ha0 & Hparse).
  apply bindR_Ok in Hparse as (a1 & Ha1 & Hparse).
  apply bindR_Ok in Hparse as (b01 & Hb01 & Hparse).
  apply bindR_Ok in Hparse as (b00 & Hb00 & Hparse).
  apply bindR_Ok in Hparse as (b11 & Hb11 & Hparse).
  apply bindR_Ok in Hparse as (b10 & Hb10 & Hparse).
  apply bindR_Ok in Hparse as (c0 & Hc0 & Hparse).
  apply bindR_Ok in Hparse as (c1 & Hc1 & Hparse).
  injection Hparse as <- <- <-.
  exists a0, a1, b00, b01, b10, b11, c0, c1. repeat split; assumption.
Qed.

End Cycle.

(** A cycle whose local verification returns false: it throws, and the
    trace holds no submission. *)
Example cycle_with_failed_local_check :
  let w := Demo.world (JS.Ok false) (JS.Ok tt) (fun _ => JS.Ok Demo.tx) in
  let run := Agent.submitOnce (PF := Demo.platform) w None Sys.init in
  fst run = JS.Throw Agent.LOCAL_FAILED
  /\ Reference.submissions (Sys.trace (snd run)) = [].
Proof. split; vm_compute; reflexivity. Qed.

Lemma every_submit_error_is_retried_witness :
  let w := Demo.world (JS.Ok true) (JS.Ok tt) Demo.revert_once in
  let args := Sys.mkArgs 35000000000 1772197104 "0x4d" [] [] [] "ref" in
  Agent.submitPriceWithProof w 0 args = JS.Throw Demo.REVERT
  /\ Agent.submit_phase w Demo.proofData [] [] [] "ref" Sys.init
     = (JS.Ok Demo.tx,
        Sys.mkState [Sys.EvSubmit args; Sys.EvSleep 2000; Sys.EvSubmit args] []
          (Sys.mkCalls 0 0 0 0 2)).
Proof.
  intros w args. split; [reflexivity|].
  exact (every_submit_error_is_retried w Demo.proofData [] [] [] "ref" Sys.init
           35000000000 1772197104 eq_refl eq_refl).
Defined.

(** C5, as stated, does not hold: the chain rejects the first submission
    with a revert; the cycle does not fail, the submission is made a
    second time and the cycle returns its record. *)
Lemma reverted_submission_is_retried :
  let w := Demo.world (JS.Ok true) (JS.Ok tt) Demo.revert_once in
  let run := Agent.submitOnce (PF := Demo.platform) w None Sys.init in
  (forall args, Agent.submitPriceWithProof w 0 args = JS.Throw Demo.REVERT)
  /\ JS.kind Demo.REVERT = JS.CallException
  /\ Reference.is_ok (fst run) = true
  /\ List.length (Reference.submissions (Sys.trace (snd run))) = 2%nat.
Proof.
  split; [reflexivity|]. split; [reflexivity|]. split; vm_compute; reflexivity.
Qed.

Lemma proof_b_rows_are_swapped_witness :
  let w := Demo.world (JS.Ok true) (JS.Ok tt) (fun _ => JS.Ok Demo.tx) in
  let run := Agent.submitOnce (PF := Demo.platform) w None Sys.init in
  exists a,
    In (Sys.EvSubmit a) (Sys.trace (snd run))
    /\ Sys.s_proof_b a = [[22; 21]; [24; 23]]%Z
    /\ exists pf sg, In (Sys.EvVerify pf sg (JS.Ok true)) (Sys.trace (snd run)).
Proof.
  intros w run.
  assert (Hin : exists a, In (Sys.EvSubmit a) (Sys.trace (snd run))
                          /\ Sys.s_proof_b a = [[22; 21]; [24; 23]]%Z).
  { vm_compute. eexists. split; [do 5 right; left; reflexivity|reflexivity]. }
  destruct Hin as (a & Ha & Hb). exists a. split; [exact Ha|]. split; [exact Hb|].
  destruct (proof_b_rows_are_swapped (PF := Demo.platform) w None a Ha)
    as (pf & sg & Hv & _).
  eauto.
Defined.

Lemma onchain_reference_is_the_presubmission_one_witness :
  let w := Demo.world (JS.Ok true) (JS.Ok tt) (fun _ => JS.Ok Demo.tx) in
  exists sub st ts,
    Agent.submitOnce (PF := Demo.platform) w None Sys.init = (JS.Ok sub, st)
    /\ Agent.r_greenfieldRef sub
       = Greenfield.keccak256 (Platform := Demo.platform)
           (Greenfield.utf8 (Reference.pre_name ts)).
Proof.
  intros w.
  destruct (Agent.submitOnce (PF := Demo.platform) w None Sys.init) as [[sub|e] st] eqn:E.
  - destruct (onchain_reference_is_the_presubmission_one (PF := Demo.platform)
                w None sub st E) as (ts & tx & _ & _ & _ & Hpre & _).
    exists sub, st, ts. split; [reflexivity|]. exact (Hpre tt eq_refl).
  - exfalso. vm_compute in E. discriminate.
Defined.

(* ================================================================== *)
(** * Failover and retry *)
(* ================================================================== *)

Section Failover.
Import JS Sys Agent Reference.

(** getProvider: the endpoints are probed in the order of the list up to
    the first that answers, which is returned; the endpoints after it are
    not probed; when none answers, all have been probed and the error is
    "All RPC endpoints unreachable". *)
Theorem provider_is_first_alive (alive : string -> bool) (rpcs : list string) (s : State) :
  match fst (probe alive rpcs s) with
  | Ok rpc =>
      exists before after,
        rpcs = (before ++ rpc :: after)%list
        /\ alive rpc = true
        /\ Forall (fun r => alive r = false) before
        /\ trace (snd (probe alive rpcs s)) = (trace s ++ probes alive (before ++ [rpc]))%list
  | Throw e =>
      e = mkError PlainError "All RPC endpoints unreachable"
      /\ Forall (fun r => alive r = false) rpcs
      /\ trace (snd (probe alive rpcs s)) = (trace s ++ probes alive rpcs)%list
  end.
Proof.
  revert s. induction rpcs as [|rpc rest IH]; intros s.
  - cbn. rewrite app_nil_r. auto.
  - destruct (alive rpc) eqn:Ealive.
    + assert (Hstep : probe alive (rpc :: rest) s
                      = (Ok rpc, mkState (trace s ++ [EvProbe rpc true]) (files s) (calls s))).
      { cbn [probe]. unfold bind, emit. now rewrite Ealive. }
      rewrite Hstep. cbn [fst snd trace]. exists [], rest. cbn [app probes map].
      rewrite Ealive. auto.
    + set (s1 := mkState (trace s ++ [EvProbe rpc false]) (files s) (calls s)).
      assert (Hstep : probe alive (rpc :: rest) s = probe alive rest s1).
      { cbn [probe]. unfold bind, emit. now rewrite Ealive. }
      rewrite Hstep. specialize (IH s1).
      destruct (fst (probe alive rest s1)) as [found|e].
      * destruct IH as (before & after & Hrest & Hal & Hdown & Htr).
        exists (rpc :: before), after. split; [now rewrite Hrest|]. split; [exact Hal|].
        split; [now constructor|].
        rewrite Htr. unfold s1. cbn [trace app probes map]. rewrite Ealive, <- app_assoc.
        reflexivity.
      * destruct IH as (He & Hdown & Htr). split; [exact He|].
        split; [now constructor|].
        rewrite Htr. unfold s1. cbn [trace app probes map]. rewrite Ealive, <- app_assoc.
        reflexivity.
Qed.

(** ** What retry returns *)

Lemma retry_loop_step {A} (fn : M A) (attempts i todo : nat) (s : State) :
  retry_loop fn attempts i (S todo) s
  = match fn s with
    | (Ok a, s1) => (Ok (Some a), s1)
    | (Throw e, s1) =>
        if (i =? attempts)%nat then (Throw e, s1)
        else retry_loop fn attempts (S i) todo
               (mkState (trace s1 ++ [EvSleep (1000 * 2 ^ Z.of_nat i)]) (files s1) (calls s1))
    end.
Proof.
  cbn [retry_loop]. unfold try_catch, bind, emit, ret, throw.
  destruct (fn s) as [[a|e] s1]; [reflexivity|].
  destruct (i =? attempts)%nat; reflexivity.
Qed.

Lemma retry_loop_outcome {A} (fn : M A) (attempts i todo : nat) (s : State) :
  (i + todo = attempts + 1)%nat -> (1 <= todo)%nat ->
  exists s0, handed_back (retry_loop fn attempts i todo s) = Some (fn s0).
Proof.
  revert i s. induction todo as [|todo IH]; intros i s Hsum Hpos; [lia|].
  cbn [retry_loop]. unfold try_catch, bind at 1.
  destruct (fn s) as [[a|e] s1] eqn:E.
  - exists s. rewrite E. reflexivity.
  - destruct (i =? attempts)%nat eqn:Ei.
    + exists s. rewrite E. reflexivity.
    + apply Nat.eqb_neq in Ei. unfold bind. cbn [emit].
      apply IH; lia.
Qed.

(** retry: with no attempt allowed the function is not called and
    [undefined] is returned; with at least one attempt retry hands back the
    outcome of a run of the function, value or error, as that run gave it
    and in the state that run left, and never [undefined]. *)
Theorem retry_hands_back_a_run {A} (fn : M A) (attempts : nat) (s : State) :
  (attempts = 0%nat -> retry fn attempts s = (Ok None, s))
  /\ ((1 <= attempts)%nat -> exists s0, handed_back (retry fn attempts s) = Some (fn s0)).
Proof.
  split.
  - intros ->. reflexivity.
  - intros Hpos. apply retry_loop_outcome; lia.
Qed.

(** ** The pauses of retry *)

Lemma sleeps_app (t u : list Event) : sleeps (t ++ u) = (sleeps t ++ sleeps u)%list.
Proof. unfold sleeps. apply flat_map_app. Qed.

Lemma sleeps_quiet (t : list Event) : Forall no_sleep t -> sleeps t = [].
Proof.
  induction 1 as [|e t He _ IH]; [reflexivity|].
  unfold sleeps in *. cbn [flat_map]. rewrite IH.
  destruct e; cbn in *; try reflexivity. destruct He.
Qed.

Lemma retry_loop_backoff {A} (fn : M A) (attempts i todo : nat) (s : State) :
  emits no_sleep fn ->
  (forall s0, exists e, fst (fn s0) = Throw e) ->
  (i + todo = attempts + 1)%nat -> (1 <= todo)%nat ->
  (exists e, fst (retry_loop fn attempts i todo s) = Throw e)
  /\ sleeps (trace (snd (retry_loop fn attempts i todo s)))
     = (sleeps (trace s)
        ++ map (fun k => 1000 * 2 ^ Z.of_nat k)%Z (seq i (todo - 1)))%list.
Proof.
  intros Hq Hfail. revert i s. induction todo as [|todo IH]; intros i s Hsum Hpos; [lia|].
  rewrite retry_loop_step.
  destruct (Hfail s) as [e He]. destruct (Hq s) as [(t & Ht & Hqt) _].
  destruct (fn s) as [[a|e'] s1]; cbn [fst snd] in *; [discriminate|].
  injection He as ->.
  assert (Hs1 : sleeps (trace s1) = sleeps (trace s)).
  { rewrite Ht, sleeps_app, (sleeps_quiet t Hqt). apply app_nil_r. }
  destruct (i =? attempts)%nat eqn:Ei.
  - apply Nat.eqb_eq in Ei. replace (S todo - 1)%nat with 0%nat by lia.
    cbn [fst snd seq map]. rewrite app_nil_r. eauto.
  - apply Nat.eqb_neq in Ei.
    destruct (IH (S i) (mkState (trace s1 ++ [EvSleep (1000 * 2 ^ Z.of_nat i)])
                     (files s1) (calls s1)) ltac:(lia) ltac:(lia)) as [Hthrow Hsl].
    split; [exact Hthrow|]. rewrite Hsl. cbn [trace].
    rewrite sleeps_app, Hs1.
    replace (S todo - 1)%nat with (S (todo - 1)) by lia.
    cbn [seq map]. rewrite <- app_assoc. reflexivity.
Qed.

(** retry of a function that fails at every attempt (and does not pause
    itself) throws, after pausing 2000 ms, 4000 ms, ..., 1000 * 2^(n-1) ms,
    one pause after each attempt but the last. *)
Theorem retry_backs_off_exponentially {A} (fn : M A) (attempts : nat) (s : State) :
  emits no_sleep fn ->
  (forall s0, exists e, fst (fn s0) = Throw e) ->
  (1 <= attempts)%nat ->
  (exists e, fst (retry fn attempts s) = Throw e)
  /\ sleeps (trace (snd (retry fn attempts s)))
     = (sleeps (trace s)
        ++ map (fun k => 1000 * 2 ^ Z.of_nat k)%Z (seq 1 (attempts - 1)))%list.
Proof.
  intros Hq Hfail Hpos. apply retry_loop_backoff; auto; lia.
Qed.

End Failover.

Lemma retry_backs_off_exponentially_witness :
  let down := Sys.throw (A := unit) (JS.mkError JS.NetworkError "timeout") in
  Reference.sleeps (Sys.trace (snd (Agent.retry down 3 Sys.init))) = [2000; 4000]%Z.
Proof.
  intros down.
  assert (Hq : Reference.emits Reference.no_sleep down) by (apply keeps_throw).
  assert (Hf : forall s0, exists e, fst (down s0) = JS.Throw e) by (intros s0; eexists; reflexivity).
  exact (proj2 (retry_backs_off_exponentially down 3 Sys.init Hq Hf (le_S _ _ (le_S _ _ (le_n 1))))).
Defined.

(* ================================================================== *)
(** * More on the aggregation *)
(* ================================================================== *)

Section Consensus.
Import JS PriceFetcher Reference.






















End Consensus.





(* ================================================================== *)
(** * Decimal strings *)
(* ================================================================== *)

Section Decimal.
Import JS Reference.

Lemma all_digits_uint (u : Decimal.uint) :
  all_digits digit_of (DecimalString.NilEmpty.string_of_uint u) = Some (digits_of u).
Proof.
  induction u as [|u IH|u IH|u IH|u IH|u IH|u IH|u IH|u IH|u IH|u IH];
    [reflexivity|..];
    cbn [DecimalString.NilEmpty.string_of_uint all_digits digits_of];
    rewrite IH; reflexivity.
Qed.

Lemma digits_of_acc (u : Decimal.uint) (acc : positive) :
  fold_left (fun a d => (10 * a + d)%Z) (digits_of u) (Z.pos acc)
  = Z.pos (Pos.of_uint_acc u acc).
Proof.
  revert acc.
  induction u as [|u IH|u IH|u IH|u IH|u IH|u IH|u IH|u IH|u IH|u IH]; intros acc;
    [reflexivity|..];
    cbn [digits_of fold_left Pos.of_uint_acc]; rewrite <- IH; f_equal; lia.
Qed.

Lemma digits_of_value (u : Decimal.uint) : digits_value 10 (digits_of u) = Z.of_uint u.
Proof.
  unfold digits_value, Z.of_uint.
  induction u as [|u IH|u IH|u IH|u IH|u IH|u IH|u IH|u IH|u IH|u IH];
    [reflexivity|exact IH|..];
    cbn [digits_of fold_left Pos.of_uint]; apply (digits_of_acc u).
Qed.

Lemma BigInt_of_decimal (s : string) (ds : list Z) :
  s <> "" -> all_digits digit_of s = Some ds ->
  BigInt_of_string s = Ok (digits_value 10 ds).
Proof.
  intros Hne Hds. destruct s as [|c t]; [congruence|].
  assert (Hc : exists d, digit_of c = Some d).
  { cbn [all_digits] in Hds. destruct (digit_of c); [eauto|discriminate]. }
  destruct Hc as [d Hc].
  destruct c as [[] [] [] [] [] [] [] []]; try (vm_compute in Hc; discriminate);
    try (cbv beta iota zeta delta [BigInt_of_string]; rewrite Hds; reflexivity).
  destruct t as [|c' t']; [cbv beta iota zeta delta [BigInt_of_string]; rewrite Hds; reflexivity|].
  assert (Hc' : exists d', digit_of c' = Some d').
  { cbn [all_digits] in Hds. destruct (digit_of c'); [eauto|].
    destruct (digit_of "0"); discriminate. }
  destruct Hc' as [d' Hc'].
  destruct c' as [[] [] [] [] [] [] [] []]; try (vm_compute in Hc'; discriminate);
    cbv beta iota zeta delta [BigInt_of_string]; rewrite Hds; reflexivity.
Qed.

Lemma to_uint_not_nil (p : positive) : Pos.to_uint p <> Decimal.Nil.
Proof.
  intros E. pose proof (DecimalPos.Unsigned.of_to p) as H. rewrite E in H. discriminate.
Qed.

Lemma BigInt_of_uint (p : positive) :
  BigInt_of_string (DecimalString.NilZero.string_of_uint (Pos.to_uint p)) = Ok (Z.pos p)
  /\ exists c t, DecimalString.NilZero.string_of_uint (Pos.to_uint p) = String c t
       /\ all_digits digit_of (String c t) = Some (digits_of (Pos.to_uint p)).
Proof.
  pose proof (to_uint_not_nil p) as Hne.
  pose proof (all_digits_uint (Pos.to_uint p)) as Hds.
  pose proof (digits_of_value (Pos.to_uint p)) as Hv.
  unfold Z.of_uint in Hv. rewrite DecimalPos.Unsigned.of_to in Hv. cbn [Z.of_N] in Hv.
  assert (E : DecimalString.NilZero.string_of_uint (Pos.to_uint p)
              = DecimalString.NilEmpty.string_of_uint (Pos.to_uint p))
    by (destruct (Pos.to_uint p); [congruence|reflexivity..]).
  rewrite E.
  assert (Hs : exists c t, DecimalString.NilEmpty.string_of_uint (Pos.to_uint p) = String c t).
  { destruct (Pos.to_uint p); [congruence|cbn; eauto..]. }
  destruct Hs as (c & t & Hs). split.
  - rewrite <- Hv. apply BigInt_of_decimal; [rewrite Hs; discriminate|exact Hds].
  - exists c, t. split; [exact Hs|now rewrite <- Hs].
Qed.

(** A BigInt printed in decimal reads back as itself. *)
Lemma BigInt_round_trip (z : Z) :
  BigInt_of_string (Prover.BigInt_toString z) = Ok z.
Proof.
  unfold Prover.BigInt_toString. destruct z as [|p|p]; cbn [Z.to_int DecimalString.NilZero.string_of_int].
  - reflexivity.
  - apply BigInt_of_uint.
  - destruct (BigInt_of_uint p) as (_ & c & t & -> & Hds).
    pose proof (digits_of_value (Pos.to_uint p)) as Hv.
    unfold Z.of_uint in Hv. rewrite DecimalPos.Unsigned.of_to in Hv. cbn [Z.of_N] in Hv.
    cbv beta iota zeta delta [BigInt_of_string]. rewrite Hds, Hv. reflexivity.
Qed.

End Decimal.

(* ================================================================== *)
(** * Where the submitted values come from *)
(* ================================================================== *)

Section Provenance.
Import JS Sys Agent Reference.
Context `{PF : Greenfield.Platform}.





Lemma submitOnce_submission (w : World) (o : option string) (a : SubmitArgs) :
  In (EvSubmit a) (trace (snd (submitOnce w o init))) ->
  exists agg pd s1 pa pb pc,
    acquire w o init = (Ok (agg, pd), s1)
    /\ parse_proof (Prover.proof pd) = Ok (pa, pb, pc)
    /\ submit_of pd pa pb pc
         (archive_ref w pd
            (mkState (trace s1 ++ [EvVerify (Prover.proof pd) (Prover.publicSignals pd)
                        (Prover.verifyProof (verifier w) (Prover.proof pd) (Prover.publicSignals pd))])
               (files s1) (calls s1)))
         (EvSubmit a).
Proof.
  unfold submitOnce, bind at 1.
  destruct (emits_acquire w o init) as [(tA & Ht & Hq) _].
  destruct (acquire w o init) as [[[agg pd]|e] s1] eqn:E; cbn [snd fst] in *.
  2:{ intros Hin. rewrite Ht in Hin. cbn [init trace app] in Hin.
      now apply early_not_submit in Hin. }
  unfold bind at 1. rewrite verify_gate_run.
  cbn [init trace app] in Ht.
  set (r := Prover.verifyProof (verifier w) (Prover.proof pd) (Prover.publicSignals pd)).
  set (s2 := mkState _ _ _).
  assert (Hearly : forall b, ~ In (EvSubmit b) (trace s2)).
  { intros b Hin. unfold s2 in Hin. cbn [trace] in Hin. apply in_app_or in Hin as [Hin|[Hin|[]]].
    - rewrite Ht in Hin. now apply early_not_submit in Hin.
    - discriminate. }
  destruct r as [[|]|e] eqn:Er; cbn [snd]; try (intros Hin; now apply Hearly in Hin).
  destruct (publish_extends w agg pd s2) as (t & Htr & Hsub & _).
  rewrite Htr. intros Hin. apply in_app_or in Hin as [Hin|Hin]; [now apply Hearly in Hin|].
  destruct (Hsub a Hin) as (pa & pb & pc & Hparse & Hs).
  exists agg, pd, s1, pa, pb, pc. split; [reflexivity|]. split; [exact Hparse|exact Hs].
Qed.


(** All the submissions of a cycle carry the same arguments: a retry sends
    again what the first attempt sent, timestamp and archive reference
    included. *)
Theorem submissions_of_a_cycle_are_identical (w : World) (o : option string)
  (a b : SubmitArgs) :
  In (EvSubmit a) (trace (snd (submitOnce w o init))) ->
  In (EvSubmit b) (trace (snd (submitOnce w o init))) ->
  a = b.
Proof.
  intros Ha Hb.
  destruct (submitOnce_submission w o a Ha) as (agg & pd & s1 & pa & pb & pc & Hacq & Hp & Hs).
  destruct (submitOnce_submission w o b Hb) as (agg' & pd' & s1' & pa' & pb' & pc' & Hacq' & Hp' & Hs').
  rewrite Hacq in Hacq'. injection Hacq' as <- <- <-.
  rewrite Hp in Hp'. injection Hp' as <- <- <-.
  cbn [submit_of] in Hs, Hs'.
  destruct Hs as (H1 & H2 & H3 & H4 & H5 & H6 & H7).
  destruct Hs' as (H1' & H2' & H3' & H4' & H5' & H6' & H7').
  rewrite H1 in H1'. rewrite H2 in H2'. injection H1' as H1'. injection H2' as H2'.
  destruct a, b. cbn in *. congruence.
Qed.



End Provenance.

(* ================================================================== *)
(** * What a cycle can cost *)
(* ================================================================== *)

Section Budget.
Import JS Sys Agent Reference.
Context `{PF : Greenfield.Platform}.
Variable c : EvClass.

Lemma occurrences_app (t t' : list Event) :
  occurrences c (t ++ t') = (occurrences c t + occurrences c t')%nat.
Proof. induction t as [|e t IH]; cbn [app occurrences]; [reflexivity|]. rewrite IH. lia. Qed.

Lemma spends_ret {A} (a : A) : spends c 0 (ret a).
Proof. intros s. exists []. cbn. now rewrite app_nil_r. Qed.

Lemma spends_throw {A} (e : Error) : spends c 0 (throw (A := A) e).
Proof. intros s. exists []. cbn. now rewrite app_nil_r. Qed.

Lemma spends_lift {A} (r : Res A) : spends c 0 (lift r).
Proof. intros s. exists []. cbn. now rewrite app_nil_r. Qed.

Lemma spends_next_call (number : Calls -> nat) (count : Calls -> Calls) :
  spends c 0 (next_call number count).
Proof. intros s. exists []. cbn. now rewrite app_nil_r. Qed.

Lemma spends_emit (e : Event) : spends c (cost c (class_of e)) (emit e).
Proof. intros s. exists [e]. cbn [emit snd trace occurrences]. split; [reflexivity|lia]. Qed.

Lemma spends_bind {A B} (k1 k2 : nat) (m : M A) (f : A -> M B) :
  spends c k1 m -> (forall a, spends c k2 (f a)) -> spends c (k1 + k2) (bind m f).
Proof.
  intros Hm Hf s. unfold bind. destruct (Hm s) as (t1 & Ht1 & Hk1).
  destruct (m s) as [[a|e] s1]; cbn [snd] in *.
  - destruct (Hf a s1) as (t2 & Ht2 & Hk2). exists (t1 ++ t2)%list.
    rewrite Ht2, Ht1, app_assoc, occurrences_app. split; [reflexivity|lia].
  - exists t1. split; [exact Ht1|lia].
Qed.

Lemma spends_try_catch {A} (k1 k2 : nat) (m : M A) (h : Error -> M A) :
  spends c k1 m -> (forall e, spends c k2 (h e)) -> spends c (k1 + k2) (try_catch m h).
Proof.
  intros Hm Hh s. unfold try_catch. destruct (Hm s) as (t1 & Ht1 & Hk1).
  destruct (m s) as [[a|e] s1]; cbn [snd] in *.
  - exists t1. split; [exact Ht1|lia].
  - destruct (Hh e s1) as (t2 & Ht2 & Hk2). exists (t1 ++ t2)%list.
    rewrite Ht2, Ht1, app_assoc, occurrences_app. split; [reflexivity|lia].
Qed.

Lemma spends_weaken {A} (k k' : nat) (m : M A) :
  spends c k m -> (k <= k')%nat -> spends c k' m.
Proof.
  intros Hm Hk s. destruct (Hm s) as (t & Ht & Hc). exists t. split; [exact Ht|lia].
Qed.

(** [attempts] runs of the function and a pause after each but the last. *)
Lemma spends_retry_loop {A} (k : nat) (fn : M A) (attempts i todo : nat) :
  spends c k fn -> (i + todo = attempts + 1)%nat ->
  spends c (todo * k + (todo - 1) * cost c CSleep) (retry_loop fn attempts i todo).
Proof.
  intros Hfn. revert i. induction todo as [|todo IH]; intros i Hsum s.
  - exists []. cbn. now rewrite app_nil_r.
  - rewrite retry_loop_step. destruct (Hfn s) as (t1 & Ht1 & Hk1).
    destruct (fn s) as [[a|e] s1]; cbn [snd] in *.
    + exists t1. split; [exact Ht1|nia].
    + destruct (i =? attempts)%nat eqn:Ei.
      * exists t1. split; [exact Ht1|cbn [snd]; nia].
      * apply Nat.eqb_neq in Ei.
        destruct (IH (S i) ltac:(lia)
                    (mkState (trace s1 ++ [EvSleep (1000 * 2 ^ Z.of_nat i)]) (files s1) (calls s1)))
          as (t2 & Ht2 & Hk2).
        exists (t1 ++ EvSleep (1000 * 2 ^ Z.of_nat i) :: t2)%list.
        rewrite Ht2. cbn [trace]. rewrite Ht1, <- !app_assoc. split; [reflexivity|].
        rewrite occurrences_app. cbn [occurrences class_of]. destruct todo as [|todo']; [lia|]. 
        replace (S (S todo') - 1)%nat with (S (S todo' - 1)) in * by lia. nia.
Qed.

Lemma spends_retried {A} (k : nat) (fn : M A) (attempts : nat) :
  spends c k fn ->
  spends c (attempts * k + (attempts - 1) * cost c CSleep) (bind (retry fn attempts) defined).
Proof.
  intros Hfn. replace (attempts * k + (attempts - 1) * cost c CSleep)%nat
    with (attempts * k + (attempts - 1) * cost c CSleep + 0)%nat by lia.
  apply spends_bind; [apply spends_retry_loop; [exact Hfn|lia]|].
  intros [a|]; [apply spends_ret|apply spends_throw].
Qed.

Lemma spends_probe (alive : string -> bool) (rpcs : list string) :
  spends c (List.length rpcs * cost c CProbe) (probe alive rpcs).
Proof.
  induction rpcs as [|rpc rest IH]; cbn [probe List.length]; [apply spends_throw|].
  replace (S (List.length rest) * cost c CProbe)%nat
    with (cost c CProbe + List.length rest * cost c CProbe)%nat by lia.
  apply spends_bind; [apply (spends_emit (EvProbe rpc (alive rpc)))|intros _].
  destruct (alive rpc); [|exact IH].
  eapply spends_weaken; [apply spends_ret|lia].
Qed.

Lemma spends_put_file (path text : string) : spends c 0 (put_file path text).
Proof. intros s. exists []. cbn. now rewrite app_nil_r. Qed.

Lemma spends_any_ret {A} (k : nat) (a : A) : spends c k (ret a).
Proof. eapply spends_weaken; [apply spends_ret|lia]. Qed.

Lemma spends_any_throw {A} (k : nat) (e : Error) : spends c k (throw (A := A) e).
Proof. eapply spends_weaken; [apply spends_throw|lia]. Qed.

Lemma spends_if {A} (k1 k2 : nat) (b : bool) (m1 m2 : M A) :
  spends c k1 m1 -> spends c k2 m2 -> spends c (k1 + k2) (if b then m1 else m2).
Proof. intros H1 H2. destruct b; eapply spends_weaken; eauto; lia. Qed.

Lemma spends_option {A B} (k1 k2 : nat) (o : option A) (m1 : A -> M B) (m2 : M B) :
  (forall a, spends c k1 (m1 a)) -> spends c k2 m2 ->
  spends c (k1 + k2) (match o with Some a => m1 a | None => m2 end).
Proof. intros H1 H2. destruct o; eapply spends_weaken; eauto; lia. Qed.

Lemma spends_emit_as (e : Event) (cl : EvClass) :
  class_of e = cl -> spends c (cost c cl) (emit e).
Proof. intros <-. apply spends_emit. Qed.

Ltac spend :=
  repeat first
    [ apply spends_ret | apply spends_throw | apply spends_lift
    | apply spends_next_call | apply spends_put_file
    | match goal with
      | |- spends _ _ (emit ?e) =>
          let cl := eval cbn in (class_of e) in apply (spends_emit_as e cl eq_refl)
      end
    | apply spends_any_ret | apply spends_any_throw
    | eapply spends_bind; [|intros ?]
    | eapply spends_try_catch; [|intros ?]
    | eapply spends_if
    | eapply spends_option; [intros ?|] ].

Ltac spend_within := eapply spends_weaken; [spend|cbn [class_of]; lia].

Lemma spends_getProvider (w : World) :
  spends c (4 * cost c CProbe) (getProvider w).
Proof.
  unfold getProvider. eapply spends_weaken.
  - eapply spends_bind; [apply spends_next_call|intros n; apply spends_probe].
  - cbn [RPC_LIST List.length]. lia.
Qed.

Lemma spends_fetch_step (w : World) (o : option string) :
  spends c (cost c CFetch) (fetch_step w o).
Proof. unfold fetch_step. spend_within. Qed.

Lemma spends_prove_step (w : World) (p : number) :
  spends c (cost c CProve) (prove_step w p).
Proof. unfold prove_step. spend_within. Qed.

Lemma spends_acquire (w : World) (o : option string) :
  spends c (12 * cost c CProbe + 3 * cost c CFetch + 2 * cost c CProve + 5 * cost c CSleep)
    (acquire w o).
Proof.
  unfold acquire. eapply spends_weaken.
  - eapply spends_bind; [apply spends_retried, spends_getProvider|intros provider].
    eapply spends_bind; [apply spends_retried, spends_fetch_step|intros priceResult].
    eapply spends_bind; [apply spends_retried, spends_prove_step|intros generated].
    apply spends_ret.
  - cbn [Nat.sub]. lia.
Qed.

Lemma spends_verify_gate (w : World) (pd : Prover.ProofData) :
  spends c (cost c CVerify) (verify_gate w pd).
Proof. unfold verify_gate, verify_step. spend_within. Qed.

Lemma spends_ensureBucket (R : Greenfield.Remote) (wallet : Greenfield.Wallet) :
  spends c (cost c CHeadBucket + cost c CListProviders + cost c CCreateBucket)
    (Greenfield.ensureBucket R wallet).
Proof. unfold Greenfield.ensureBucket. spend_within. Qed.

Lemma spends_uploadProof (R : Greenfield.Remote) (pd : Prover.ProofData) (txHash : string)
  (wallet : Greenfield.Wallet) :
  spends c (cost c CLocalWrite + cost c CListProviders + cost c CCreateObject
            + cost c CUploadObject)
    (Greenfield.uploadProof R pd txHash wallet).
Proof. unfold Greenfield.uploadProof, Greenfield.remote_upload. cbv zeta. spend_within. Qed.

Lemma spends_upload_step (w : World) (pd : Prover.ProofData) (txHash : string) :
  spends c (cost c CLocalWrite + cost c CListProviders + cost c CCreateObject
            + cost c CUploadObject)
    (upload_step w pd txHash).
Proof.
  unfold upload_step. eapply spends_weaken.
  - eapply spends_bind; [apply spends_next_call|intros n; apply spends_uploadProof].
  - lia.
Qed.

Lemma spends_send_step (w : World) (pd : Prover.ProofData) (pa : list Z)
  (pb : list (list Z)) (pc : list Z) (ref : string) :
  spends c (cost c CSubmit) (send_step w pd pa pb pc ref).
Proof. unfold send_step. cbv zeta. spend_within. Qed.

Lemma spends_publish (w : World) (agg : PriceFetcher.Aggregated) (pd : Prover.ProofData) :
  spends c (cost c CHeadBucket + cost c CCreateBucket + 3 * cost c CListProviders
            + 2 * cost c CLocalWrite + 2 * cost c CCreateObject + 2 * cost c CUploadObject
            + 3 * cost c CSubmit + 2 * cost c CSleep + cost c CWait)
    (publish w agg pd).
Proof.
  unfold publish, pre_archive, submit_phase, post_archive. eapply spends_weaken.
  - eapply spends_bind; [apply spends_lift|intros [[pa pb] pc]].
    eapply spends_bind.
    { eapply spends_try_catch; [|intros e; apply spends_ret].
      eapply spends_bind; [apply spends_ensureBucket|intros b].
      eapply spends_bind; [apply spends_upload_step|intros up; apply spends_ret]. }
    intros gfResult.
    eapply spends_bind; [apply spends_retried, spends_send_step|intros tx].
    eapply spends_bind; [apply (spends_emit_as (EvWait (tx_hash tx)) CWait eq_refl)|intros _].
    eapply spends_bind; [apply spends_lift|intros receipt].
    eapply spends_bind.
    { eapply spends_try_catch; [|intros e; apply spends_ret].
      eapply spends_bind; [apply spends_upload_step|intros up; apply spends_ret]. }
    intros _.
    eapply spends_bind; [apply spends_lift|intros _; apply spends_ret].
  - cbn [class_of Nat.sub]. lia.
Qed.

Lemma spends_submitOnce (w : World) (o : option string) :
  spends c (budget c) (submitOnce w o).
Proof.
  unfold submitOnce. eapply spends_weaken.
  - eapply spends_bind; [apply spends_acquire|intros got].
    eapply spends_bind; [apply spends_verify_gate|intros _; apply spends_publish].
  - destruct c; cbn; lia.
Qed.

(** One cycle, whatever the outside does and however it ends, probes the
    RPC endpoints at most 12 times, fetches prices at most 3 times, proves at
    most twice, verifies at most once, submits at most 3 times, waits for at
    most one receipt, writes at most 2 archive files, pauses at most 7
    times, and asks the remote store at most once for the bucket, once to
    create it, 3 times for its providers, twice to create an object and
    twice to upload one. *)
Theorem a_cycle_stays_within_its_budget (w : World) (o : option string) :
  (occurrences c (trace (snd (submitOnce w o init))) <= budget c)%nat.
Proof.
  destruct (spends_submitOnce w o init) as (t & Ht & Hk).
  rewrite Ht. exact Hk.
Qed.

End Budget.


Lemma submissions_of_a_cycle_are_identical_witness :
  let w := Demo.world (JS.Ok true) (JS.Ok tt) Demo.revert_once in
  let run := Agent.submitOnce (PF := Demo.platform) w None Sys.init in
  let a := Sys.mkArgs 35000000000 1772197104
             "0x000000000000000000000000000000000000000000000000000000000000004d"
             [11; 12]%Z [[22; 21]; [24; 23]]%Z [31; 32]%Z
             "0x76657269732d70726f6f662d313737323139373130342d70656e64696e672d31372e6a736f6e" in
  In (Sys.EvSubmit a) (Sys.trace (snd run))
  /\ Reference.submissions (Sys.trace (snd run)) = [a; a].
Proof.
  intros w run a.
  assert (Hin : In (Sys.EvSubmit a) (Sys.trace (snd run))).
  { vm_compute. repeat (first [left; reflexivity | right]). }
  split; [exact Hin|].
  pose proof (submissions_of_a_cycle_are_identical (PF := Demo.platform) w None a a Hin Hin)
    as Hsame.
  vm_compute. reflexivity.
Defined.


(* ================================================================== *)
(** * More on the archive *)
(* ================================================================== *)

Section Shards.
Import JS Sys Greenfield Reference.
Context `{PF : Platform}.

Lemma data_shards_fail (bytes : list byte) (n i : nat) :
  (i + n <= 4)%nat ->
  (exists j, (i <= j < i + n)%nat /\ (List.length bytes < j * shardSize (List.length bytes))%nat) ->
  data_shards bytes i n = Throw OUT_OF_RANGE.
Proof.
  revert i. induction n as [|n IH]; intros i Hin (j & Hj & Hout); [lia|].
  cbn [data_shards].
  destruct (Nat.lt_ge_cases (List.length bytes) (i * shardSize (List.length bytes))) as [H|H].
  - unfold Buffer_copy. apply Nat.ltb_lt in H. rewrite H. reflexivity.
  - rewrite copy_shard by (try exact H; lia). cbn [bindR].
    rewrite IH; [reflexivity|lia|]. exists j. split; [|exact Hout].
    assert (j <> i) by (intros ->; lia). lia.
Qed.

Lemma short_last_shard (len : nat) :
  (len < 3 * shardSize len)%nat <-> len = 1%nat \/ len = 2%nat \/ len = 5%nat.
Proof.
  split.
  - intros H. destruct (Nat.lt_ge_cases 5 len) as [H5|H5].
    + pose proof (shards_start_inside len 3 H5 ltac:(lia)). lia.
    + do 6 (destruct len as [|len]; [vm_compute in H; lia|]). lia.
  - intros [H|[H|H]]; subst len; vm_compute; lia.
Qed.

(** manualChecksums fails on payloads of 1, 2 and 5 bytes, with the range
    error of [Buffer.copy]: the last shard would start beyond the end of the
    payload.  On every other payload, the empty one included, it returns
    seven checksums. *)
Theorem manualChecksums_fails_on_three_sizes (bytes : list byte) :
  let len := List.length bytes in
  ((len = 1%nat \/ len = 2%nat \/ len = 5%nat) ->
     manualChecksums bytes = Throw OUT_OF_RANGE)
  /\ (~ (len = 1%nat \/ len = 2%nat \/ len = 5%nat) ->
        exists cs, manualChecksums bytes = Ok cs /\ List.length cs = 7%nat).
Proof.
  intros len. split; intros H.
  - apply short_last_shard in H. unfold manualChecksums.
    rewrite (data_shards_fail bytes EC_DATA 0); [reflexivity|unfold EC_DATA; lia|].
    exists 3%nat. split; [unfold EC_DATA; lia|exact H].
  - rewrite <- short_last_shard in H. unfold manualChecksums, EC_DATA.
    rewrite data_shards_ok; [cbn [bindR]; eexists; split; [reflexivity|reflexivity]|lia|].
    intros j Hj. pose proof (shardSize_bounds (List.length bytes)). fold len in H, H0 |- *. nia.
Qed.

(** ** Which provider is chosen *)

(** The provider chosen is the first whose moniker contains neither "test"
    nor "qa", in any case of the letters; when every provider is such a test
    provider, it is the first of the list.  Only the chosen provider is
    asked for its address: when it has none, none is found, whatever the
    providers after it have. *)
Theorem primary_provider_is_the_first_real_one (sps : list StorageProvider) :
  (forall before sp after,
     sps = (before ++ sp :: after)%list ->
     Forall (fun x => real_provider x = false) before ->
     real_provider sp = true ->
     primary_address sps = sp_address sp)
  /\ (Forall (fun x => real_provider x = false) sps ->
      primary_address sps = match sps with sp :: _ => sp_address sp | [] => None end).
Proof.
  assert (Hnone : forall l, Forall (fun x => real_provider x = false) l ->
                            filter (fun sp => lacks "test" sp && lacks "qa" sp) l = []).
  { induction 1 as [|x l Hx _ IH]; [reflexivity|].
    cbn [filter]. unfold real_provider in Hx. now rewrite Hx. }
  split.
  - intros before sp after -> Hb Hsp. unfold primary_address.
    rewrite filter_app, (Hnone before Hb). cbn [app filter].
    unfold real_provider in Hsp. rewrite Hsp. reflexivity.
  - intros Hall. unfold primary_address. rewrite (Hnone sps Hall). reflexivity.
Qed.

(** ** A local write that fails *)

(** When the local write fails, uploadProof throws that error at once: the
    remote store is not contacted, no file is recorded, and no entry is
    returned. *)
Theorem upload_stops_at_a_failed_local_write (R : Remote) (pd : Prover.ProofData)
  (txHash : string) (wallet : Wallet) (s : State) (e : Error) :
  local_write R = Throw e ->
  exists text,
    uploadProof R pd txHash wallet s
    = (Throw e,
       mkState (trace s ++ [EvLocalWrite (LOCAL_DIR ++ "/" ++ object_name (Prover.timestamp pd) txHash)
                              text])
         (files s) (calls s)).
Proof.
  intros Hw. pose proof (uploadProof_run R pd txHash wallet s) as Hrun.
  cbv zeta in Hrun. rewrite Hw in Hrun. eexists. exact Hrun.
Qed.

(** ** The names of the archive *)

Lemma hex_prefix (d : list byte) :
  substring 0 8 (Prover.toString_hex d) = Prover.toString_hex (firstn 4 d).
Proof.
  destruct d as [|b0 [|b1 [|b2 [|b3 d]]]]; try reflexivity.
  cbn [Prover.toString_hex firstn substring]. now destruct (Prover.toString_hex d).
Qed.

(** Of the transaction hash, only the first four bytes enter the name of
    the archive written after the submission, hence its reference; the name
    written before the submission repeats the first two characters of the
    timestamp. *)
Theorem archive_names_keep_four_bytes_of_the_hash (ts : string) (tx : Agent.TxResponse) :
  post_name ts tx
  = "veris-proof-" ++ ts ++ "-0x" ++ Prover.toString_hex (firstn 4 (Agent.tx_digest tx)) ++ ".json"
  /\ pre_name ts = "veris-proof-" ++ ts ++ "-pending-" ++ substring 0 2 ts ++ ".json"
  /\ forall tx', firstn 4 (Agent.tx_digest tx') = firstn 4 (Agent.tx_digest tx) ->
                 post_name ts tx' = post_name ts tx.
Proof.
  assert (Hname : forall t, post_name ts t
            = "veris-proof-" ++ ts ++ "-0x"
                ++ Prover.toString_hex (firstn 4 (Agent.tx_digest t)) ++ ".json").
  { intros t. unfold post_name, object_name, Agent.tx_hash, slice0.
    change (substring 0 10 ("0x" ++ ?h)) with (String "0" (String "x" (substring 0 8 h))).
    rewrite hex_prefix. reflexivity. }
  split; [apply Hname|]. split; [reflexivity|].
  intros tx' H. now rewrite !Hname, H.
Qed.

(** ** What the parity shard is good for *)

Lemma lxor_below_256 (x y : N) : (x < 256 -> y < 256 -> N.lxor x y < 256)%N.
Proof.
  intros Hx Hy. destruct (N.eq_dec (N.lxor x y) 0) as [E|E]; [rewrite E; reflexivity|].
  change 256%N with (2 ^ 8)%N in *. apply N.log2_lt_pow2; [lia|].
  pose proof (N.log2_lxor x y) as Hl.
  assert (Hlx : (N.log2 x < 8)%N).
  { destruct (N.eq_dec x 0) as [->|Hx0]; [reflexivity|]. apply N.log2_lt_pow2; lia. }
  assert (Hly : (N.log2 y < 8)%N).
  { destruct (N.eq_dec y 0) as [->|Hy0]; [reflexivity|]. apply N.log2_lt_pow2; lia. }
  lia.
Qed.

Lemma to_N_byte_xor (a b : byte) :
  Byte.to_N (byte_xor a b) = N.lxor (Byte.to_N a) (Byte.to_N b).
Proof.
  unfold byte_xor.
  destruct (Byte.of_N (N.lxor (Byte.to_N a) (Byte.to_N b))) as [c|] eqn:E.
  - now apply Byte.to_of_N in E.
  - apply Byte.of_N_None_iff in E.
    pose proof (Byte.to_N_bounded a) as Ha. pose proof (Byte.to_N_bounded b) as Hb.
    pose proof (lxor_below_256 (Byte.to_N a) (Byte.to_N b) ltac:(lia) ltac:(lia)). lia.
Qed.

Lemma to_N_inj (a b : byte) : Byte.to_N a = Byte.to_N b -> a = b.
Proof.
  intros H. pose proof (Byte.of_to_N a) as Ha. rewrite H, Byte.of_to_N in Ha. congruence.
Qed.

(** XORing out three of four bytes from their XOR leaves the fourth. *)
Lemma xor4_cancel (a b c d : byte) :
  byte_xor (byte_xor (byte_xor (xor4 a b c d) b) c) d = a
  /\ byte_xor (byte_xor (byte_xor (xor4 a b c d) a) c) d = b
  /\ byte_xor (byte_xor (byte_xor (xor4 a b c d) a) b) d = c
  /\ byte_xor (byte_xor (byte_xor (xor4 a b c d) a) b) c = d.
Proof.
  unfold xor4. repeat split; apply to_N_inj; rewrite !to_N_byte_xor;
    set (x := Byte.to_N a); set (y := Byte.to_N b);
    set (z := Byte.to_N c); set (u := Byte.to_N d);
    apply N.bits_inj; intros n; rewrite !N.lxor_spec;
    destruct (N.testbit x n), (N.testbit y n), (N.testbit z n), (N.testbit u n); reflexivity.
Qed.

Lemma xor_into3_nth (p a b c : list byte) (size i : nat) :
  Forall (fun d => List.length d = size) [p; a; b; c] -> (i < size)%nat ->
  nth i (xor_into (xor_into (xor_into p a) b) c) x00
  = byte_xor (byte_xor (byte_xor (nth i p x00) (nth i a x00)) (nth i b x00)) (nth i c x00).
Proof.
  intros H Hi. rewrite !Forall_cons_iff in H. destruct H as (Hp & Ha & Hb & Hc & _).
  rewrite !xor_into_nth; rewrite ?xor_into_length; try lia. reflexivity.
Qed.

(** The first parity shard is an erasure code for one shard: XORing three
    of the four data shards into it, as the code XORs shards into a buffer,
    gives the fourth. *)
Theorem parity_recovers_a_lost_shard (size : nat) (d0 d1 d2 d3 : list byte) :
  Forall (fun d => List.length d = size) [d0; d1; d2; d3] ->
  let par0 := parity_shard size [d0; d1; d2; d3] 0 in
  xor_into (xor_into (xor_into par0 d1) d2) d3 = d0
  /\ xor_into (xor_into (xor_into par0 d0) d2) d3 = d1
  /\ xor_into (xor_into (xor_into par0 d0) d1) d3 = d2
  /\ xor_into (xor_into (xor_into par0 d0) d1) d2 = d3.
Proof.
  intros Hall par0.
  destruct (parity_of_four size d0 d1 d2 d3 Hall) as (Hlen & Hnth & _). fold par0 in Hlen, Hnth.
  pose proof Hall as Hl. rewrite !Forall_cons_iff in Hl. destruct Hl as (H0 & H1 & H2 & H3 & _).
  repeat split; apply (nth_ext _ _ x00 x00); rewrite ?xor_into_length; try congruence;
    intros i Hi; rewrite Hlen in Hi;
    (rewrite (xor_into3_nth _ _ _ _ size); [|repeat constructor; assumption|exact Hi]);
    rewrite Hnth by exact Hi; apply xor4_cancel.
Qed.

End Shards.

(* ================================================================== *)
(** * Checksums as the SDK returns them, and the listing *)
(* ================================================================== *)

Section Normalise.
Import JS Greenfield Reference.

Lemma byte_of_val (b : byte) : byte_of_nat (Z.to_nat (Prover.byte_val b)) = b.
Proof.
  unfold byte_of_nat, Prover.byte_val. pose proof (Byte.to_N_bounded b) as Hb.
  rewrite Nat.mod_small by lia.
  replace (N.of_nat (Z.to_nat (Z.of_N (Byte.to_N b)))) with (Byte.to_N b) by lia.
  now rewrite Byte.of_to_N.
Qed.

Lemma from_hex_to_hex (bs : list byte) : Buffer_from_hex (Prover.toString_hex bs) = bs.
Proof.
  induction bs as [|b t IH]; [reflexivity|].
  pose proof (Prover.byte_val_range b) as Hb.
  cbn [Prover.toString_hex Buffer_from_hex].
  rewrite !Prover.hexdigit_hexchar by (try apply Z.mod_pos_bound; try split;
    try apply Z.div_pos; try apply Z.div_lt_upper_bound; lia).
  rewrite IH. f_equal.
  rewrite <- (byte_of_val b) at 3. do 2 f_equal. pose proof (Z.div_mod (Prover.byte_val b) 16). lia.
Qed.

Lemma substring_all (s : string) : substring 0 (String.length s) s = s.
Proof. induction s as [|c t IH]; cbn; [reflexivity|]. now rewrite IH. Qed.

Lemma hex_has_no_prefix (bs : list byte) : prefix "0x" (Prover.toString_hex bs) = false.
Proof.
  destruct bs as [|b t]; [reflexivity|].
  pose proof (Prover.byte_val_range b) as Hb.
  cbn [Prover.toString_hex].
  assert (Hlo : hexdigit_of (Prover.hexchar (Prover.byte_val b mod 16))
                = Some (Prover.byte_val b mod 16)%Z)
    by (apply Prover.hexdigit_hexchar, Z.mod_pos_bound; lia).
  destruct (prefix "0x" _) eqn:E; [|reflexivity]. exfalso.
  cbn [prefix] in E.
  destruct (ascii_dec "0" (Prover.hexchar (Prover.byte_val b / 16))) as [_|_]; [|discriminate].
  destruct (ascii_dec "x" (Prover.hexchar (Prover.byte_val b mod 16))) as [Hx|_]; [|discriminate].
  rewrite <- Hx in Hlo. discriminate.
Qed.

Lemma substring_length (s : string) (n m : nat) :
  (String.length (substring n m s) <= String.length s)%nat.
Proof.
  revert n m. induction s as [|c t IH]; intros [|n] [|m]; cbn; try lia.
  - specialize (IH 0%nat m). lia.
  - specialize (IH n 0%nat). lia.
  - specialize (IH n (S m)). lia.
Qed.

Lemma from_hex_length (n : nat) (s : string) :
  (String.length s <= n)%nat -> (2 * List.length (Buffer_from_hex s) <= String.length s)%nat.
Proof.
  revert s. induction n as [|n IH]; intros s Hn.
  - destruct s; [cbn; lia|cbn in Hn; lia].
  - destruct s as [|a [|b t]]; cbn [Buffer_from_hex List.length String.length]; try lia.
    destruct (hexdigit_of a), (hexdigit_of b); cbn [List.length]; try lia.
    cbn [String.length] in Hn. specialize (IH t ltac:(lia)). lia.
Qed.

(** toUint8Array reads a hexadecimal string back into the bytes it prints,
    with or without the prefix 0x; a Uint8Array is returned as it is.  A
    string is never refused: decoding stops without error at the first pair
    that is not hexadecimal, so a result has at most half as many bytes as
    the string has characters, and a string with the prefix 0X in upper case
    gives no byte at all. *)
Theorem toUint8Array_reads_hex_digests (bs : list byte) :
  toUint8Array (AsString ("0x" ++ Prover.toString_hex bs)) = bs
  /\ toUint8Array (AsString (Prover.toString_hex bs)) = bs
  /\ toUint8Array (AsBytes bs) = bs
  /\ (forall s, (2 * List.length (toUint8Array (AsString s)) <= String.length s)%nat)
  /\ (forall s, toUint8Array (AsString ("0X" ++ s)) = []).
Proof.
  split; [|split; [|split; [|split]]].
  - cbn [toUint8Array].
    assert (E : prefix "0x" ("0x" ++ Prover.toString_hex bs) = true)
      by (cbn; now destruct (Prover.toString_hex bs)).
    rewrite E. unfold slice_from. cbn [append String.length Nat.sub substring].
    rewrite Nat.sub_0_r, substring_all. apply from_hex_to_hex.
  - cbn [toUint8Array]. rewrite hex_has_no_prefix. apply from_hex_to_hex.
  - reflexivity.
  - intros s. cbn [toUint8Array]. destruct (prefix "0x" s) eqn:E.
    + unfold slice_from.
      pose proof (from_hex_length _ (substring 2 (String.length s - 2) s) (le_n _)) as H.
      pose proof (substring_length s 2 (String.length s - 2)). lia.
    + apply (from_hex_length _ s (le_n _)).
  - intros s. reflexivity.
Qed.

End Normalise.

Section Listing.
Import JS Greenfield Reference.

Lemma slice_length {A} (l : list A) (start : Z) (stop : option Z) :
  (List.length (slice l start stop) <= List.length l)%nat.
Proof.
  unfold slice. rewrite length_firstn, length_skipn. lia.
Qed.

Lemma slice_prefix {A} (l : list A) (limit : Z) :
  (0 <= limit)%Z -> slice l 0 (Some limit) = firstn (Z.to_nat limit) l.
Proof.
  intros H. unfold slice, relative. cbn [Z.ltb Z.compare Z.to_nat Nat.min skipn].
  destruct (limit <? 0)%Z eqn:E; [apply Z.ltb_lt in E; lia|].
  rewrite Nat.sub_0_r. destruct (Nat.le_ge_cases (Z.to_nat limit) (List.length l)) as [Hle|Hge].
  - now rewrite Nat.min_l.
  - rewrite Nat.min_r by exact Hge. now rewrite !firstn_all2 by lia.
Qed.

Lemma slice_suffix {A} (l : list A) (limit : Z) :
  (0 < limit)%Z ->
  slice l (- limit) None = skipn (List.length l - Z.to_nat limit) l.
Proof.
  intros H. unfold slice, relative.
  destruct (- limit <? 0)%Z eqn:E; [|apply Z.ltb_ge in E; lia].
  replace (Z.to_nat (Z.max (Z.of_nat (List.length l) + - limit) 0))
    with (List.length l - Z.to_nat limit)%nat by lia.
  apply firstn_all2. rewrite length_skipn. lia.
Qed.

Lemma slice_zero {A} (l : list A) : slice l (- 0) None = l /\ slice l 0 (Some 0%Z) = [].
Proof.
  unfold slice, relative. cbn [Z.opp Z.ltb Z.compare Z.to_nat Nat.min skipn Nat.sub firstn].
  split; [|reflexivity]. rewrite Nat.sub_0_r. apply firstn_all.
Qed.

Lemma all_some_length {A} (l : list (option A)) (r : list A) :
  all_some l = Some r -> List.length r = List.length l.
Proof.
  revert r. induction l as [|[a|] t IH]; intros r; cbn [all_some]; try discriminate.
  - intros [= <-]. reflexivity.
  - destruct (all_some t) as [r'|]; [|discriminate]. intros [= <-]. cbn. now rewrite (IH r').
Qed.

Lemma all_some_map {A} (l : list A) : all_some (map Some l) = Some l.
Proof. induction l as [|a t IH]; cbn; [reflexivity|]. now rewrite IH. Qed.

Lemma local_listing_length (L : Lister) (limit : Z) :
  (0 < limit)%Z -> (List.length (local_listing L limit) <= Z.to_nat limit)%nat.
Proof.
  intros Hpos. unfold local_listing. destruct (readdir L); [|cbn; lia].
  rewrite length_map, length_rev, slice_suffix, length_skipn by lia. lia.
Qed.

(** listProofs never returns more entries than a positive limit: the first
    [limit] objects of the remote store, or, when there is no client or the
    remote listing fails, the last [limit] of the local .json files, the last
    one first.  With a limit of 0 the remote listing is empty but the local
    one holds every .json file of the directory. *)
Theorem listProofs_respects_a_positive_limit (L : Lister) :
  (forall limit, (0 < limit)%Z ->
     (List.length (listProofs L limit) <= Z.to_nat limit)%nat)
  /\ (forall limit objects, (0 <= limit)%Z ->
        lister_client L = true -> listObjects L = Ok (map Some objects) ->
        map l_name (listProofs L limit) = firstn (Z.to_nat limit) (map fst objects))
  /\ (forall limit files, (0 < limit)%Z ->
        (lister_client L = false \/ exists e, listObjects L = Throw e) ->
        readdir L = Some files ->
        let jsons := filter (endsWith ".json") files in
        map l_name (listProofs L limit)
        = rev (skipn (List.length jsons - Z.to_nat limit) jsons))
  /\ (forall files,
        (lister_client L = false \/ exists e, listObjects L = Throw e) ->
        readdir L = Some files ->
        map l_name (listProofs L 0) = rev (filter (endsWith ".json") files))
  /\ (forall objects, lister_client L = true -> listObjects L = Ok objects ->
        listProofs L 0 = []).
Proof.
  assert (Hlocal : forall limit, lister_client L = false \/ (exists e, listObjects L = Throw e) ->
            listProofs L limit = local_listing L limit).
  { intros limit [H|[e H]]; unfold listProofs; fold (local_listing L limit); [now rewrite H|].
    rewrite H. now destruct (lister_client L). }
  split; [|split; [|split; [|split]]].
  - intros limit Hpos. unfold listProofs. fold (local_listing L limit).
    pose proof (local_listing_length L limit Hpos) as Hloc.
    destruct (lister_client L); [|exact Hloc].
    destruct (listObjects L) as [objects|e]; [|exact Hloc].
    destruct (all_some _) as [picked|] eqn:E; [|exact Hloc].
    apply all_some_length in E. rewrite length_map, E, slice_prefix, length_firstn by lia. lia.
  - intros limit objects Hl Hc Ho. unfold listProofs. rewrite Hc, Ho.
    rewrite slice_prefix by lia. rewrite firstn_map.
    rewrite all_some_map, map_map. cbn [l_name]. symmetry. apply firstn_map.
  - intros limit files Hpos Hno Hd jsons. rewrite Hlocal by exact Hno.
    unfold local_listing. rewrite Hd, map_map.
    cbn [l_name]. rewrite map_id. fold jsons. now rewrite slice_suffix.
  - intros files Hno Hd. rewrite Hlocal by exact Hno. unfold local_listing.
    rewrite Hd, map_map. cbn [l_name]. rewrite map_id. now rewrite (proj1 (slice_zero _)).
  - intros objects Hc Ho. unfold listProofs. rewrite Hc, Ho.
    now rewrite (proj2 (slice_zero _)).
Qed.

End Listing.

(* ================================================================== *)
(** * The hash commitment *)
(* ================================================================== *)

Section CommitReveal.
Import JS Commitment.
Context `{PF : Greenfield.Platform}.

Lemma BigInt_of_integer (z : Z) : Prover.BigInt_of_number (Fin (inject_Z z)) = Ok z.
Proof.
  unfold Prover.BigInt_of_number. rewrite Qfloor_Z.
  assert (E : Qeq_bool (inject_Z z) (inject_Z z) = true) by (apply Qeq_bool_iff; reflexivity).
  now rewrite E.
Qed.

Lemma toString_hex_length (bs : list byte) :
  String.length (Prover.toString_hex bs) = (2 * List.length bs)%nat.
Proof. induction bs as [|b t IH]; cbn [Prover.toString_hex String.length List.length]; lia. Qed.

(** A commitment that generatePriceCommitment returns verifies: calling
    verifyCommitment with the price, the timestamp and the commitment of the
    public part and the salt of the witness returns true.  The salt is 0x
    and 64 hexadecimal digits, and it is not part of the public record. *)
Theorem a_generated_commitment_verifies (pack : Packer) (now : Z) (rng : nat -> byte)
  (priceUSD : number) (source : string) (pr : PriceProof) (wit : Witness) :
  generatePriceCommitment pack now rng priceUSD source = Ok (pr, wit) ->
  verifyCommitment pack (p_price pr) (p_timestamp pr) (w_salt wit) (p_commitment pr) = Ok true
  /\ p_commitment pr = w_commitment wit
  /\ w_salt wit = "0x" ++ Prover.toString_hex (Prover.randomBytes 32 rng 0)
  /\ String.length (w_salt wit) = 66%nat
  /\ p_timestamp pr = now.
Proof.
  intros H. unfold generatePriceCommitment in H. cbv zeta in H.
  remember ("0x" ++ Prover.toString_hex (Prover.randomBytes 32 rng 0)) as salt eqn:Hsalt in H.
  apply bindR_Ok in H as (z & Hz & H).
  apply bindR_Ok in H as (ts & Hts & H).
  apply bindR_Ok in H as (packed & Hpack & H).
  injection H as <- <-. cbn [p_price p_timestamp p_commitment w_salt w_commitment].
  split; [|split; [reflexivity|split; [exact Hsalt|split; [|reflexivity]]]].
  - unfold verifyCommitment. rewrite BigInt_round_trip. cbn [bindR].
    rewrite Hts. cbn [bindR]. rewrite Hpack. cbn [bindR]. now rewrite String.eqb_refl.
  - rewrite Hsalt. cbn [append String.length]. rewrite toString_hex_length, Prover.randomBytes_length. reflexivity.
Qed.

End CommitReveal.

Lemma upload_stops_at_a_failed_local_write_witness :
  let R := Demo.offline (JS.Throw (JS.mkError JS.PlainError "EACCES")) in
  Greenfield.local_write R = JS.Throw (JS.mkError JS.PlainError "EACCES")
  /\ exists s',
       Greenfield.uploadProof (PF := Demo.platform) R Demo.proofData "0xabcdef"
         (Greenfield.mkWallet "0xwallet" "0xkey") Sys.init
       = (JS.Throw (JS.mkError JS.PlainError "EACCES"), s')
       /\ Sys.files s' = [].
Proof.
  intros R. split; [reflexivity|].
  destruct (upload_stops_at_a_failed_local_write (PF := Demo.platform) R Demo.proofData
              "0xabcdef" (Greenfield.mkWallet "0xwallet" "0xkey") Sys.init
              (JS.mkError JS.PlainError "EACCES") eq_refl) as (text & H).
  eexists. split; [exact H|reflexivity].
Defined.

Lemma parity_recovers_a_lost_shard_witness :
  Forall (fun d => List.length d = 1%nat) [[x01]; [x02]; [x04]; [x08]]
  /\ Greenfield.parity_shard 1 [[x01]; [x02]; [x04]; [x08]] 0 = [x0f]
  /\ Greenfield.xor_into (Greenfield.xor_into (Greenfield.xor_into [x0f] [x02]) [x04]) [x08]
     = [x01].
Proof.
  assert (H : Forall (fun d => List.length d = 1%nat) [[x01]; [x02]; [x04]; [x08]])
    by (repeat constructor).
  split; [exact H|]. split; [reflexivity|].
  exact (proj1 (parity_recovers_a_lost_shard 1 [x01] [x02] [x04] [x08] H)).
Defined.

Lemma a_generated_commitment_verifies_witness :
  exists pr wit,
    Commitment.generatePriceCommitment (PF := Demo.platform) Demo.pack 1772197104
      (fun _ => x2a) (JS.Fin (62658 # 100)) "binance" = JS.Ok (pr, wit)
    /\ Commitment.p_price pr = "62658000000"
    /\ Commitment.verifyCommitment (PF := Demo.platform) Demo.pack (Commitment.p_price pr)
         (Commitment.p_timestamp pr) (Commitment.w_salt wit) (Commitment.p_commitment pr)
       = JS.Ok true.
Proof.
  destruct (Commitment.generatePriceCommitment (PF := Demo.platform) Demo.pack 1772197104
              (fun _ => x2a) (JS.Fin (62658 # 100)) "binance") as [[pr wit]|e] eqn:E;
    [|vm_compute in E; discriminate].
  exists pr, wit. split; [reflexivity|].
  pose proof (a_generated_commitment_verifies (PF := Demo.platform) Demo.pack 1772197104
                (fun _ => x2a) (JS.Fin (62658 # 100)) "binance" pr wit E) as (Hv & _).
  split; [|exact Hv].
  vm_compute in E. injection E as <- _. reflexivity.
Defined.

(* ================================================================== *)
(** * Cycles that stop early *)
(* ================================================================== *)

Section Outage.
Import JS Sys Agent Reference.
Context `{PF : Greenfield.Platform}.

Lemma probe_all_down (alive : string -> bool) (rpcs : list string) (s : State) :
  Forall (fun r => alive r = false) rpcs ->
  probe alive rpcs s
  = (Throw ALL_DOWN, mkState (trace s ++ probes alive rpcs) (files s) (calls s)).
Proof.
  intros Hall. revert s. induction Hall as [|rpc rest Hr _ IH]; intros s.
  - cbn. rewrite app_nil_r. now destruct s.
  - cbn [probe probes map]. unfold bind, emit. rewrite Hr. rewrite IH.
    cbn [trace files calls]. now rewrite <- app_assoc.
Qed.

(** When no RPC endpoint answers, a cycle probes each endpoint three times,
    in the order of the list, pausing 2000 ms and 4000 ms between the rounds,
    and fails with "All RPC endpoints unreachable"; it fetches no price,
    makes no proof and writes nothing. *)
Theorem no_endpoint_no_cycle (w : World) (o : option string) :
  (forall n rpc, rpc_alive w n rpc = false) ->
  let down := map (fun rpc => EvProbe rpc false) RPC_LIST in
  submitOnce w o init
  = (Throw ALL_DOWN,
     mkState (down ++ EvSleep 2000 :: down ++ EvSleep 4000 :: down) []
       (mkCalls 3 0 0 0 0)).
Proof.
  intros Hdown down.
  assert (Hget : forall s, getProvider w s
            = (Throw ALL_DOWN,
               mkState (trace s ++ down) (files s) (count_provider (calls s)))).
  { intros s. unfold getProvider, bind, next_call.
    rewrite probe_all_down by (apply Forall_forall; intros rpc _; apply Hdown).
    cbn [trace files calls]. do 3 f_equal. unfold probes, down.
    apply map_ext. intros rpc. now rewrite Hdown. }
  unfold submitOnce, acquire, bind at 1. unfold bind at 1. unfold bind at 1.
  unfold retry. rewrite retry_loop_step, Hget. cbn [Nat.eqb].
  rewrite retry_loop_step, Hget. cbn [Nat.eqb].
  rewrite retry_loop_step, Hget. cbn [Nat.eqb trace files calls init count_provider
    c_provider c_fetch c_prove c_upload c_send app].
  rewrite <- !app_assoc. reflexivity.
Qed.

(** generateProof checks the circuit files before anything else: without
    the WASM file, and then without the key file, it fails with the message
    that names the file, whatever the price, and so does verifyProof; with
    both files it fails with a RangeError on a price that is not finite; and
    a timestamp of 0 is replaced by the clock, as a missing one is. *)
Theorem generateProof_checks_before_proving (env : Prover.Env) (p : number) (ts : option Z) :
  (Prover.wasm_exists env = false ->
     exists e, Prover.generateProof env p ts = Throw e
               /\ (forall pf signals, Prover.verifyProof env pf signals = Throw e)
               /\ prefix "Circuit WASM not found" (message e) = true)
  /\ (Prover.wasm_exists env = true -> Prover.zkey_exists env = false ->
        exists e, Prover.generateProof env p ts = Throw e
                  /\ prefix "ZKey not found" (message e) = true)
  /\ (Prover.wasm_exists env = true -> Prover.zkey_exists env = true ->
        isFinite p = false ->
        exists e, Prover.generateProof env p ts = Throw e /\ kind e = RangeError)
  /\ Prover.generateProof env p (Some 0%Z) = Prover.generateProof env p None.
Proof.
  split; [|split; [|split]].
  - intros Hw. eexists. unfold Prover.generateProof, Prover.verifyProof, Prover.checkCircuitFiles.
    rewrite Hw. cbn [negb bindR]. split; [reflexivity|]. split; [intros pf signals|]; reflexivity.
  - intros Hw Hz. eexists. unfold Prover.generateProof, Prover.checkCircuitFiles.
    rewrite Hw, Hz. cbn [negb bindR]. split; reflexivity.
  - intros Hw Hz Hp. unfold Prover.generateProof, Prover.checkCircuitFiles.
    rewrite Hw, Hz. cbn [negb bindR].
    destruct p as [q| | |]; [discriminate|..]; eexists; (split; [reflexivity|reflexivity]).
  - reflexivity.
Qed.

End Outage.

Lemma no_endpoint_no_cycle_witness :
  let w := Agent.mkWorld (fun _ _ => false) (fun _ => Demo.quotes)
             (fun _ => Demo.engine (JS.Ok true)) (Demo.engine (JS.Ok true))
             (Greenfield.mkWallet "0xwallet" "0xkey")
             (Demo.offline (JS.Ok tt)) (fun _ => Demo.offline (JS.Ok tt))
             (fun _ _ => JS.Ok Demo.tx) (JS.Ok tt) 1500 in
  (forall n rpc, Agent.rpc_alive w n rpc = false)
  /\ fst (Agent.submitOnce (PF := Demo.platform) w None Sys.init) = JS.Throw Reference.ALL_DOWN
  /\ List.length (Sys.trace (snd (Agent.submitOnce (PF := Demo.platform) w None Sys.init)))
     = 14%nat.
Proof.
  intros w.
  assert (H : forall n rpc, Agent.rpc_alive w n rpc = false) by reflexivity.
  split; [exact H|].
  rewrite (no_endpoint_no_cycle (PF := Demo.platform) w None H).
  split; reflexivity.
Defined.

(* ================================================================== *)
(** * The record of a cycle *)
(* ================================================================== *)

Section Record.
Import JS Sys Agent Reference.
Context `{PF : Greenfield.Platform}.



End Record.


(* ================================================================== *)
(** * Cycles that fail late, and the order of the checksum helpers *)
(* ================================================================== *)

Section Late.
Import JS Sys Agent Reference.
Context `{PF : Greenfield.Platform}.


End Late.

Section Helpers.
Import JS Greenfield.
Context `{PF : Platform}.

(** The checksum helpers of the SDK are tried in order and the first seven
    checksums returned are used; but a first helper that throws ends the
    attempt: the second helper is not consulted, even when it would have
    returned seven checksums, and the manual computation is used. *)
Theorem a_throwing_helper_hides_the_second_one (sdk : Sdk) (bytes : list byte) :
  (sdk_loads sdk = true -> NodeAdapterModule sdk bytes = Failing ->
     computeExpectChecksums sdk bytes = manualChecksums bytes)
  /\ (forall cs, sdk_loads sdk = true ->
        NodeAdapterModule sdk bytes = Returning (Some cs) -> List.length cs = 7%nat ->
        computeExpectChecksums sdk bytes = Ok cs)
  /\ (forall cs, sdk_loads sdk = true ->
        (NodeAdapterModule sdk bytes = Absent
         \/ exists v, NodeAdapterModule sdk bytes = Returning v /\ seven v = None) ->
        getCheckSums sdk bytes = Returning (Some cs) -> List.length cs = 7%nat ->
        computeExpectChecksums sdk bytes = Ok cs)
  /\ (forall v, seven v = None <->
                match v with Some cs => List.length cs <> 7%nat | None => True end).
Proof.
  assert (Hseven : forall cs, List.length cs = 7%nat -> seven (Some cs) = Some cs).
  { intros cs H. cbn. now rewrite H. }
  unfold computeExpectChecksums. split; [|split; [|split]].
  - intros Hl Hf. now rewrite Hl, Hf.
  - intros cs Hl Hr H7. now rewrite Hl, Hr, (Hseven cs H7).
  - intros cs Hl Hn Hg H7. rewrite Hl, Hg, (Hseven cs H7). cbn [negb].
    destruct Hn as [->|(v & -> & ->)]; reflexivity.
  - intros [cs|]; cbn; [|tauto].
    destruct (List.length cs =? 7)%nat eqn:E.
    + apply Nat.eqb_eq in E. split; [discriminate|congruence].
    + apply Nat.eqb_neq in E. tauto.
Qed.

End Helpers.

